(** * Wellby firmware: the PPG signal-processing library (processing.cpp)

    A shallow embedding of the functions of [processing.cpp] and the
    properties of its documentation that can be stated on them, followed by
    the managers of the device ([PPGManager.cpp], [PowerManager.cpp],
    [buttonManager.cpp], [BluetoothManager.cpp]) and further properties of
    the code.

    Conventions of the embedding.

    - [int] and [long] (both 32 bits on the nRF52 target) are [Z]; where an
      arithmetic expression of the source can leave the 32-bit range the
      wrap-around is written out with [wrap32].  Loop counters and indices
      that are bounded by an array size are plain [Z].
    - [float] is IEEE-754 binary32 and [double] is binary64, both as
      [spec_float] with the operations of the standard library's
      [SpecFloat] (round to nearest, ties to even; NaN without payload).
    - An array is a list read with [rd]; an array that is overwritten in
      place (a caller-supplied output array, the window of the valley scan)
      is written with [upd]; a buffer the function allocates and fills
      through [buf[n++] = v] is a list that grows at its end, with the
      counter [n] kept next to it as in the source.  Reads and writes
      outside an array are undefined in C: here a read yields a default and
      a write is dropped, and the properties that depend on them assume the
      indices in bounds.
    - [malloc] is taken to succeed, and the pointer and the count a function
      returns through its result and an output parameter are returned as a
      pair.  Where the result is an [option], [None] is the NULL pointer,
      also the one a final [realloc] to zero bytes returns; where it is a
      plain list, a NULL result with count 0 is the empty list.
    - A [for (i = lo; i < hi; i++)] loop is [for_range lo hi body].
    - The managers of the device ([PPGManager], [PowerManager],
      [ButtonManager], and the raw PPG and recording control characteristics
      of [BluetoothManager]) are records of their members with one function
      per method.  What a method reads from the hardware is a parameter of
      its function: the values [millis()] returns, the level of the button
      pin, the sensor and ADC readings, and whether a central is connected.
      What it sends over BLE is appended to a log kept in the record.
      [unsigned long] is 32 bits, with the wrap-around [wrapu32]. *)

From Stdlib Require Import ZArith List Bool Lia Sorted Ascii.
From Stdlib Require Import SpecFloat.
Import ListNotations.

Local Open Scope Z_scope.

(** ** Machine integers *)

Definition wrap32 (z : Z) : Z := (z + 2147483648) mod 4294967296 - 2147483648.

Definition INT_MAX : Z := 2147483647.
Definition INT_MIN : Z := -2147483648.

(** ** Arrays *)

Module Arr.

Definition rd {A} (d : A) (a : list A) (i : Z) : A :=
  if i <? 0 then d else nth (Z.to_nat i) a d.

Fixpoint upd_nat {A} (a : list A) (n : nat) (v : A) : list A :=
  match a, n with
  | [], _ => []
  | _ :: t, O => v :: t
  | h :: t, S k => h :: upd_nat t k v
  end.

Definition upd {A} (a : list A) (i : Z) (v : A) : list A :=
  if i <? 0 then a else upd_nat a (Z.to_nat i) v.

Definition len {A} (a : list A) : Z := Z.of_nat (length a).

(** The indices [lo, lo+1, ..., hi-1]. *)
Fixpoint zseq (lo : Z) (n : nat) : list Z :=
  match n with
  | O => []
  | S k => lo :: zseq (lo + 1) k
  end.

Definition range (lo hi : Z) : list Z := zseq lo (Z.to_nat (hi - lo)).

(** [slice d a lo hi]: the elements [a[lo], ..., a[hi-1]]. *)
Definition slice {A} (d : A) (a : list A) (lo hi : Z) : list A :=
  map (rd d a) (range lo hi).

End Arr.

(** ** Loops *)

Fixpoint for_loop {S : Type} (n : nat) (i : Z) (body : Z -> S -> S) (s : S) : S :=
  match n with
  | O => s
  | Datatypes.S k => for_loop k (i + 1) body (body i s)
  end.

Definition for_range {S : Type} (lo hi : Z) (body : Z -> S -> S) (s : S) : S :=
  for_loop (Z.to_nat (hi - lo)) lo body s.

(** ** Floating point *)

(** [float]: IEEE-754 binary32. *)
Module F32.
Definition prec : Z := 24.
Definition emax : Z := 128.

Definition zero : spec_float := S754_zero false.

Definition add := SFadd prec emax.
Definition sub := SFsub prec emax.
Definition mul := SFmul prec emax.
Definition div := SFdiv prec emax.
Definition sqrt := SFsqrt prec emax.

(** The comparison operators of C; all are false on NaN. *)
Definition lt (x y : spec_float) : bool := SFltb x y.
Definition le (x y : spec_float) : bool := SFleb x y.
Definition gt (x y : spec_float) : bool := SFltb y x.
Definition ge (x y : spec_float) : bool := SFleb y x.

(** [(float)n] for an integer [n]. *)
Definition of_int (n : Z) : spec_float := binary_normalize prec emax n 0 false.

(** Rounding of a [double] on assignment to a [float]. *)
Definition of_double (x : spec_float) : spec_float :=
  match x with
  | S754_finite s m e => binary_normalize prec emax (cond_Zopp s (Zpos m)) e false
  | _ => x
  end.

(** [x] is a value of the format: its mantissa and exponent are those of
    a binary32 number. *)
Definition valid (x : spec_float) : bool := valid_binary prec emax x.
End F32.

(** [double]: IEEE-754 binary64. *)
Module F64.
Definition prec : Z := 53.
Definition emax : Z := 1024.

Definition add := SFadd prec emax.
Definition div := SFdiv prec emax.

Definition of_int (n : Z) : spec_float := binary_normalize prec emax n 0 false.

(** Promotion of a [float] to [double] (exact). *)
Definition of_float (x : spec_float) : spec_float :=
  match x with
  | S754_finite s m e => binary_normalize prec emax (cond_Zopp s (Zpos m)) e false
  | _ => x
  end.

(** [pow(x, n)] of the C library for the exponents the source uses
    (n = 2, 3, 4), taken as correctly rounded; zeros, infinities and NaN
    as C's Annex F prescribes for a positive integer exponent. *)
Definition pow (x : spec_float) (n : positive) : spec_float :=
  let odd := Z.odd (Zpos n) in
  match x with
  | S754_nan => S754_nan
  | S754_infinity s => S754_infinity (s && odd)
  | S754_zero s => S754_zero (s && odd)
  | S754_finite s m e =>
      binary_normalize prec emax (cond_Zopp (s && odd) (Zpos (Pos.pow m n)))
        (e * Zpos n) false
  end.
End F64.

(** [x += y] where [x] is a [float] and [y] a [double]: the sum is taken in
    [double] and rounded back to [float]. *)
Definition add_assign_double (x y : spec_float) : spec_float :=
  F32.of_double (F64.add (F64.of_float x) y).

(** [ceil] of a finite value [(-1)^s * m * 2^e], as an integer. *)
Definition ceilZ (s : bool) (m : positive) (e : Z) : Z :=
  match e with
  | Zneg p => - ((- cond_Zopp s (Zpos m)) / Z.pow 2 (Zpos p))
  | _ => cond_Zopp s (Zpos m) * Z.pow 2 e
  end.

(** [(int)ceil(x)].  The conversion is the target's (ARM [vcvt]): it
    saturates, and NaN converts to 0; C leaves both cases undefined. *)
Definition ceil_to_int (x : spec_float) : Z :=
  match x with
  | S754_nan => 0
  | S754_zero _ => 0
  | S754_infinity s => if s then INT_MIN else INT_MAX
  | S754_finite s m e => Z.max INT_MIN (Z.min INT_MAX (ceilZ s m e))
  end.

(** Array reads at the two element types; a read outside the array is
    undefined in C and yields the default here. *)
Definition rdF (a : list spec_float) (i : Z) : spec_float := Arr.rd F32.zero a i.
Definition rdZ (a : list Z) (i : Z) : Z := Arr.rd 0 a i.
Definition rdP (a : list (Z * Z)) (i : Z) : Z * Z := Arr.rd (0, 0) a i.

(** [malloc(n * sizeof(T))]: [n] cells of unspecified content. *)
Definition malloc {A} (d : A) (n : Z) : list A := repeat d (Z.to_nat n).

(** [realloc(p, n * sizeof(T))] where the result is returned as a pointer
    that the caller tests: the first [n] cells are kept, and a request of
    zero bytes frees the buffer and returns NULL ([None]), as the C library
    of the target (newlib) and glibc do. *)
Definition realloc {A} (p : list A) (n : Z) : option (list A) :=
  if n =? 0 then None else Some (firstn (Z.to_nat n) p).

(** * The functions of processing.cpp *)

(** ** Moving average filter *)

(** The inner loop: sum and count of the samples of the window that ends
    at [i]. *)
Definition window_sum (input : list spec_float) (i windowSize : Z) : spec_float * Z :=
  for_range 0 windowSize (fun j '(sum, count) =>
    if i - j >=? 0
    then (F32.add sum (rdF input (i - j)), count + 1)
    else (sum, count))
    (F32.zero, 0).

(** Returns the output array. *)
Definition movingAverageFilter (input output : list spec_float)
    (size windowSize : Z) : list spec_float :=
  for_range 0 size (fun i output =>
    let '(sum, count) := window_sum input i windowSize in
    Arr.upd output i (F32.div sum (F32.of_int count))) output.

(** ** Remove zero values *)

(** Returns the output array and [*newSize]. *)
Definition removeZero (input : list Z) (size : Z) : list spec_float * Z :=
  let count :=
    for_range 0 size (fun i count =>
      if negb (rdZ input i =? 0) then count + 1 else count) 0 in
  let '(output, j) :=
    for_range 0 size (fun i '(output, j) =>
      if negb (rdZ input i =? 0)
      then (output ++ [F32.of_int (rdZ input i)], j + 1)
      else (output, j)) ([], 0) in
  (output, count).

(** ** Noise elimination (simplified version) *)

(** What a call can observe or change: the arrays behind its pointer
    arguments. *)
Record noise_buffers := { nb_data : list spec_float; nb_ths : list spec_float }.

Definition eliminateNoiseInTime_basic (size fs cycle : Z) (st : noise_buffers)
    : unit * noise_buffers :=
  (tt, st).

(** ** Valley detection *)

(** [TH_elapsed = (int)ceil(min_distance * fs)]. *)
Definition TH_elapsed (min_distance : spec_float) (fs : Z) : Z :=
  ceil_to_int (F32.mul min_distance (F32.of_int fs)).

(** The refractory filter shared, as code, by the two detectors: candidate
    [c] is appended when nothing was accepted yet or when it lies more than
    [th] after the last accepted index. *)
Definition accept_if_far (th c : Z) (st : list Z * Z) : list Z * Z :=
  let '(accepted, n) := st in
  if (n =? 0) || (c - rdZ accepted (n - 1) >? th)
  then (accepted ++ [c], n + 1)
  else (accepted, n).

Definition window_min (dataset : list spec_float) (window : list Z)
    (window_size : Z) : Z :=
  for_range 1 window_size (fun j min_index =>
    if F32.lt (rdF dataset (rdZ window j)) (rdF dataset (rdZ window min_index))
    then j else min_index) 0.

Definition signal_sum (dataset : list spec_float) (size : Z) : spec_float :=
  for_range 0 size (fun i acc => F32.add acc (rdF dataset i)) F32.zero.

(** The first scan: the valley candidates, one per run of samples at or
    below the mean. *)
Definition valley_candidates (dataset : list spec_float) (size : Z)
    (localaverage : spec_float) : list Z * Z :=
  let '(valleyList, nvalleys, _, _) :=
    for_range 0 size (fun i st =>
      let '(valleyList, nvalleys, window, window_size) := st in
      if F32.gt (rdF dataset i) localaverage && (window_size <? 1) then st
      else if F32.le (rdF dataset i) localaverage then
        (valleyList, nvalleys, Arr.upd window window_size i, window_size + 1)
      else if window_size >? 0 then
        let min_index := window_min dataset window window_size in
        (valleyList ++ [rdZ window min_index], nvalleys + 1, window, 0)
      else st)
      ([], 0, malloc 0 size, 0) in
  (valleyList, nvalleys).

(** Returns the valley array and [*valley_count]. *)
Definition valleyDetection (dataset : list spec_float) (size fs : Z)
    (min_distance : spec_float) : list Z * Z :=
  let th := TH_elapsed min_distance fs in
  let localaverage := F32.div (signal_sum dataset size) (F32.of_int size) in
  let '(valleyList, nvalleys) := valley_candidates dataset size localaverage in
  for_range 0 nvalleys (fun i st => accept_if_far th (rdZ valleyList i) st) ([], 0).

(** ** Pair consecutive valleys *)

Definition pairValley (valleys : list Z) (valley_count : Z) : list (Z * Z) :=
  for_range 0 (valley_count - 1) (fun i pairedValleys =>
    pairedValleys ++ [(rdZ valleys i, rdZ valleys (i + 1))]) [].

(** ** Statistical detection *)

(** The body of the loop of [statisticDetection] for one segment
    [[start, end_]]: (std, kurtosis, skewness). *)
Definition segment_statistics (signal : list spec_float) (start end_ : Z)
    : spec_float * spec_float * spec_float :=
  let length := end_ - start + 1 in
  let sum :=
    for_range start (end_ + 1) (fun j sum => F32.add sum (rdF signal j)) F32.zero in
  let mean := F32.div sum (F32.of_int length) in
  let variance :=
    for_range start (end_ + 1) (fun j variance =>
      add_assign_double variance
        (F64.pow (F64.of_float (F32.sub (rdF signal j) mean)) 2)) F32.zero in
  let variance := F32.div variance (F32.of_int length) in
  let std := F32.sqrt variance in
  let fourth_moment :=
    for_range start (end_ + 1) (fun j fourth_moment =>
      add_assign_double fourth_moment
        (F64.pow (F64.of_float (F32.sub (rdF signal j) mean)) 4)) F32.zero in
  let kurtosis :=
    F32.sub (F32.div (F32.div fourth_moment (F32.of_int length))
                     (F32.mul variance variance))
            (F32.of_int 3) in
  let third_moment :=
    for_range start (end_ + 1) (fun j third_moment =>
      add_assign_double third_moment
        (F64.pow (F64.of_float (F32.sub (rdF signal j) mean)) 3)) F32.zero in
  let skew :=
    F32.of_double
      (F64.div (F64.of_float (F32.div third_moment (F32.of_int length)))
               (F64.pow (F64.of_float (F32.sqrt variance)) 3)) in
  (std, kurtosis, skew).

(** Returns the three output arrays [stds], [kurtosiss], [skews]. *)
Definition statisticDetection (signal : list spec_float) (size fs : Z)
    (valleys : list (Z * Z)) (valley_count : Z)
    (stds kurtosiss skews : list spec_float)
    : list spec_float * list spec_float * list spec_float :=
  for_range 0 valley_count (fun i '(stds, kurtosiss, skews) =>
    let start := fst (rdP valleys i) in
    let end_ := snd (rdP valleys i) in
    let '(std, kurtosis, skew) := segment_statistics signal start end_ in
    (Arr.upd stds i std, Arr.upd kurtosiss i kurtosis, Arr.upd skews i skew))
    (stds, kurtosiss, skews).

(** ** Statistical threshold calculation *)

Record thresholds := {
  std_ths : spec_float;
  kurt_ths : spec_float;
  skews_ths0 : spec_float;
  skews_ths1 : spec_float
}.

Definition statisticThreshold (stds kurtosiss skews : list spec_float)
    (valley_count : Z) (ths : list spec_float) : thresholds :=
  let '(std_sum, kurt_sum, skew_sum) :=
    for_range 0 valley_count (fun i '(std_sum, kurt_sum, skew_sum) =>
      (F32.add std_sum (rdF stds i),
       F32.add kurt_sum (rdF kurtosiss i),
       F32.add skew_sum (rdF skews i)))
      (F32.zero, F32.zero, F32.zero) in
  let n := F32.of_int valley_count in
  {| std_ths := F32.add (F32.div std_sum n) (rdF ths 0);
     kurt_ths := F32.add (F32.div kurt_sum n) (rdF ths 1);
     skews_ths0 := F32.sub (F32.div skew_sum n) (rdF ths 2);
     skews_ths1 := F32.add (F32.div skew_sum n) (rdF ths 3) |}.

(** ** Noise elimination (advanced version) *)

(** The test of step 3 on the statistics of one segment. *)
Definition within_thresholds (t : thresholds) (std kurtosis skew : spec_float) : bool :=
  F32.lt std (std_ths t) && F32.lt kurtosis (kurt_ths t)
  && F32.gt skew (skews_ths0 t) && F32.lt skew (skews_ths1 t).

(** Returns the filtered array and [*newSize]. *)
Definition eliminateNoiseInTime (data : list spec_float) (size fs : Z)
    (ths : list spec_float) (cycle : Z) (valleys : list (Z * Z))
    (valley_count : Z) : list spec_float * Z :=
  let stds := malloc F32.zero valley_count in
  let kurtosiss := malloc F32.zero valley_count in
  let skews := malloc F32.zero valley_count in
  let '(stds, kurtosiss, skews) :=
    statisticDetection data size fs valleys valley_count stds kurtosiss skews in
  let t := statisticThreshold stds kurtosiss skews valley_count ths in
  let '(valid_indices, valid_count) :=
    for_range 0 valley_count (fun i '(valid_indices, valid_count) =>
      if within_thresholds t (rdF stds i) (rdF kurtosiss i) (rdF skews i)
      then (valid_indices ++ [i], valid_count + 1)
      else (valid_indices, valid_count)) ([], 0) in
  let final_size :=
    for_range 0 valid_count (fun i final_size =>
      final_size + (snd (rdP valleys (rdZ valid_indices i))
                    - fst (rdP valleys (rdZ valid_indices i)) + 1)) 0 in
  let '(filtered_data, idx) :=
    for_range 0 valid_count (fun i st =>
      for_range (fst (rdP valleys (rdZ valid_indices i)))
                (snd (rdP valleys (rdZ valid_indices i)) + 1)
        (fun j '(filtered_data, idx) => (filtered_data ++ [rdF data j], idx + 1))
        st) ([], 0) in
  (filtered_data, final_size).

(** ** Threshold peak detection *)

(** The capacity of the buffer [peakList] that the function allocates
    before it scans.  The scan never compares [peak_idx] with it. *)
Definition max_peaks (size : Z) : Z := Z.quot size 10.

(** Returns the accepted peaks, in the order of the writes
    [peakList[peak_idx++] = i], and [*peak_count].  The list records every
    write the scan makes.  The buffer of the source holds [max_peaks size]
    cells and the writes go to the cells [0 .. peak_count - 1], so a run of
    the source stays inside its buffer exactly when the count returned is at
    most [max_peaks size]; beyond that the source writes and reads outside
    the allocation, which C leaves undefined, and the properties of the
    result are stated for the runs within the capacity. *)
Definition thresholdPeakDetection (dataset : list spec_float) (size fs : Z)
    (threshold_factor min_distance : spec_float) : list Z * Z :=
  let local_average := F32.div (signal_sum dataset size) (F32.of_int size) in
  let local_average := F32.mul local_average threshold_factor in
  let th := TH_elapsed min_distance fs in
  for_range 1 (size - 1) (fun i st =>
    if F32.ge (rdF dataset i) local_average
       && F32.gt (rdF dataset i) (rdF dataset (i - 1))
       && F32.gt (rdF dataset i) (rdF dataset (i + 1))
    then accept_if_far th i st
    else st) ([], 0).

(** ** RR intervals *)

(** Returns the interval array ([None] for the NULL pointer) and
    [*rrCount].  The buffer is shrunk to the intervals kept by the final
    [realloc], which returns NULL when none was kept.  The division is C's
    truncating one; a division by [fs = 0] is undefined in C, and the
    properties below take [fs > 0]. *)
Definition calcRrIntervals (peaks : list Z) (peakCount fs : Z)
    : option (list Z) * Z :=
  if peakCount <? 2 then (None, 0)
  else
    let '(rr_intervals, rr_idx) :=
      for_range 1 peakCount (fun i '(rr_intervals, rr_idx) =>
        let rr_interval :=
          wrap32 (Z.quot (wrap32 (wrap32 (rdZ peaks i - rdZ peaks (i - 1)) * 1000)) fs) in
        if (rr_interval >=? 300) && (rr_interval <=? 1500)
        then (rr_intervals ++ [rr_interval], rr_idx + 1)
        else (rr_intervals, rr_idx)) ([], 0) in
    (realloc rr_intervals rr_idx, rr_idx).

(** ** HRV metrics *)

(** Returns the metrics array ([None] for the NULL pointer) and
    [*metricsCount]. *)
Definition calculateHRVMetrics (rr_intervals : list Z) (rrCount : Z)
    : option (list spec_float) * Z :=
  if rrCount =? 0 then (None, 0)
  else
    let sumRR :=
      for_range 0 rrCount (fun i sumRR =>
        F32.add sumRR (F32.of_int (rdZ rr_intervals i))) F32.zero in
    let avgRR := F32.div sumRR (F32.of_int rrCount) in
    let heartRate :=
      F32.of_double (F64.div (F64.of_int 60000) (F64.of_float avgRR)) in
    let varianceRR :=
      for_range 0 rrCount (fun i varianceRR =>
        add_assign_double varianceRR
          (F64.pow (F64.of_float (F32.sub (F32.of_int (rdZ rr_intervals i)) avgRR)) 2))
        F32.zero in
    let sdnn := F32.sqrt (F32.div varianceRR (F32.of_int rrCount)) in
    let sumOfSquares :=
      for_range 1 rrCount (fun i sumOfSquares =>
        let diff :=
          F32.of_int (wrap32 (rdZ rr_intervals i - rdZ rr_intervals (i - 1))) in
        F32.add sumOfSquares (F32.mul diff diff)) F32.zero in
    let rmssd := F32.sqrt (F32.div sumOfSquares (F32.of_int (rrCount - 1))) in
    (Some [heartRate; sdnn; rmssd], 3).

(** ** RR interval consistency *)

Definition estimateRRIntervalConsistency (rr_intervals : list Z) (rrCount : Z)
    : spec_float :=
  if rrCount <? 2 then F32.of_int (-1)
  else
    let meanRR :=
      for_range 0 rrCount (fun i meanRR =>
        F32.add meanRR (F32.of_int (rdZ rr_intervals i))) F32.zero in
    let meanRR := F32.div meanRR (F32.of_int rrCount) in
    let varianceRR :=
      for_range 0 rrCount (fun i varianceRR =>
        add_assign_double varianceRR
          (F64.pow (F64.of_float (F32.sub (F32.of_int (rdZ rr_intervals i)) meanRR)) 2))
        F32.zero in
    F32.sqrt (F32.div varianceRR (F32.of_int rrCount)).

(** ** The bandpass filter of processing.cpp *)

(** The [float] value of a decimal literal [n / 10^k] of the source: the
    literal is a [double], converted on initialisation of the [float]
    coefficient. *)
Definition float_literal (n : Z) (pow10 : Z) : spec_float :=
  F32.of_double (F64.div (F64.of_int n) (F64.of_int pow10)).

(** [b[] = {0.292893, 0, -0.292893}] and [a[] = {1, -1.16574, 0.292893}]. *)
Definition bp_b0 : spec_float := float_literal 292893 1000000.

Definition bp_b1 : spec_float := F32.of_int 0.

Definition bp_b2 : spec_float := float_literal (-292893) 1000000.

Definition bp_a1 : spec_float := float_literal (-116574) 100000.

Definition bp_a2 : spec_float := float_literal 292893 1000000.

(** The filter equation for one sample: [x0], [x1], [x2] are
    [input[i]], [input[i-1]], [input[i-2]] and [y1], [y2] are
    [output[i-1]], [output[i-2]]; every operation is a [float] one, taken
    left to right and rounded on its own (no fused multiply-add). *)
Definition bandpass_step (x0 x1 x2 : Z) (y1 y2 : spec_float) : spec_float :=
  F32.sub
    (F32.sub
       (F32.add
          (F32.add (F32.mul bp_b0 (F32.of_int x0)) (F32.mul bp_b1 (F32.of_int x1)))
          (F32.mul bp_b2 (F32.of_int x2)))
       (F32.mul bp_a1 y1))
    (F32.mul bp_a2 y2).

(** Returns the output array. *)
Definition bandpassFilter (input : list Z) (output : list spec_float) (size : Z)
    : list spec_float :=
  for_range 0 size (fun i output =>
    if i <? 2 then Arr.upd output i (F32.of_int (rdZ input i))
    else
      Arr.upd output i
        (bandpass_step (rdZ input i) (rdZ input (i - 1)) (rdZ input (i - 2))
           (rdF output (i - 1)) (rdF output (i - 2)))) output.

(** * The managers of the device *)

(** ** Unsigned and narrow machine integers *)

(** [unsigned long] of the target: 32 bits, arithmetic modulo 2^32. *)
Definition wrapu32 (z : Z) : Z := z mod 2 ^ 32.

(** [static_cast<int16_t>]: the low 16 bits, read as two's complement. *)
Definition wrap16 (z : Z) : Z := (z + 2 ^ 15) mod 2 ^ 16 - 2 ^ 15.

(** ** BluetoothManager.cpp: the raw PPG characteristic *)

(** [BluetoothManager::sendRawPpgData]: the first [length] bytes of [data]
    are notified when a central is connected; [notified] is the log of the
    packets notified so far. *)
Definition sendRawPpgData (connected : bool) (data : list Z) (length : Z)
    (notified : list (list Z)) : list (list Z) :=
  if connected then notified ++ [firstn (Z.to_nat length) data] else notified.

(** ** PPGManager.cpp *)

Definition SAMPLING_RATE : Z := 200.

Definition SAMPLING_AVERAGE : Z := 8.

Definition COLLECTION_TIME : Z := 60000.

Definition BUFFER_SIZE : Z :=
  (SAMPLING_RATE / SAMPLING_AVERAGE) * (COLLECTION_TIME / 2000).

(** The members of [PPGManager] the recording path uses, the static vector
    [dataBatch] of [batchPPGData], the power state of the sensor, and the
    log of the BLE notifications. *)
Record PPGManager := mkPPGManager {
  PPGindex : Z;
  recordingStartTime : Z;
  recordingInProgress : bool;
  ppgRawData : list Z;
  dataBatch : list Z;
  sensor_awake : bool;
  notified : list (list Z)
}.

Definition resetPPGArray (m : PPGManager) : PPGManager :=
  mkPPGManager 0 (recordingStartTime m) (recordingInProgress m)
    (map (fun _ => 0) (ppgRawData m)) (dataBatch m) (sensor_awake m) (notified m).

Definition shutDownSensor (m : PPGManager) : PPGManager :=
  mkPPGManager (PPGindex m) (recordingStartTime m) (recordingInProgress m)
    (ppgRawData m) (dataBatch m) false (notified m).

Definition turnOnSensor (m : PPGManager) : PPGManager :=
  mkPPGManager (PPGindex m) (recordingStartTime m) (recordingInProgress m)
    (ppgRawData m) (dataBatch m) true (notified m).

Definition isDataCollected (m : PPGManager) : bool := PPGindex m >=? BUFFER_SIZE.

(** [millis] is the value [millis()] returns in the call. *)
Definition startRealTimePPGRecording (millis : Z) (m : PPGManager) : PPGManager :=
  let m := resetPPGArray m in
  let m := turnOnSensor m in
  mkPPGManager (PPGindex m) millis true
    (ppgRawData m) (dataBatch m) (sensor_awake m) (notified m).

Definition stopRealTimePPGRecording (m : PPGManager) : PPGManager :=
  shutDownSensor
    (mkPPGManager (PPGindex m) (recordingStartTime m) false
       (ppgRawData m) (dataBatch m) (sensor_awake m) (notified m)).

(** The three bytes [batchPPGData] appends for a reading. *)
Definition delimiter : Z := 254.

Definition packetSize : Z := 18.

Definition high_byte (ppgSignal : Z) : Z := Z.land (Z.shiftr (wrap16 ppgSignal) 8) 255.

Definition low_byte (ppgSignal : Z) : Z := Z.land (wrap16 ppgSignal) 255.

Definition batchPPGData (connected : bool) (ppgSignal : Z) (m : PPGManager) : PPGManager :=
  let batch := dataBatch m ++ [high_byte ppgSignal] in
  let batch := batch ++ [low_byte ppgSignal] in
  let batch := batch ++ [delimiter] in
  if Arr.len batch >=? packetSize then
    mkPPGManager (PPGindex m) (recordingStartTime m) (recordingInProgress m)
      (ppgRawData m) [] (sensor_awake m)
      (sendRawPpgData connected batch (Arr.len batch) (notified m))
  else
    mkPPGManager (PPGindex m) (recordingStartTime m) (recordingInProgress m)
      (ppgRawData m) batch (sensor_awake m) (notified m).

(** [green] is the reading [particleSensor.getGreen()] returns. *)
Definition collectPPGData (connected : bool) (green : Z) (m : PPGManager) : PPGManager :=
  batchPPGData connected green m.

Definition realTimePPGRec (millis : Z) (connected : bool) (green : Z)
    (m : PPGManager) : PPGManager :=
  if recordingInProgress m then
    if wrapu32 (millis - recordingStartTime m) <? COLLECTION_TIME then
      collectPPGData connected green m
    else stopRealTimePPGRecording m
  else m.

(** [BluetoothManager::recordingStartCallback] for a linked PPG manager
    ([None]: [ppgManager] is null). *)
Definition recordingStartCallback (millis : Z) (data : list Z) (len : Z)
    (ppgManager : option PPGManager) : option PPGManager :=
  match ppgManager with
  | Some m =>
      if len =? 1 then
        if rdZ data 0 =? 1 then Some (startRealTimePPGRecording millis m)
        else if rdZ data 0 =? 0 then Some (stopRealTimePPGRecording m)
        else Some m
      else Some m
  | None => None
  end.

(** The public calls of a [PPGManager] and of the recording control
    characteristic, with the values the environment supplies. *)
Inductive ppg_call :=
| Call_startRealTimePPGRecording (millis : Z)
| Call_stopRealTimePPGRecording
| Call_realTimePPGRec (millis : Z) (connected : bool) (green : Z)
| Call_resetPPGArray
| Call_shutDownSensor
| Call_turnOnSensor
| Call_recordingStartCallback (millis : Z) (data : list Z) (len : Z).

Definition ppg_step (m : PPGManager) (c : ppg_call) : PPGManager :=
  match c with
  | Call_startRealTimePPGRecording t => startRealTimePPGRecording t m
  | Call_stopRealTimePPGRecording => stopRealTimePPGRecording m
  | Call_realTimePPGRec t c g => realTimePPGRec t c g m
  | Call_resetPPGArray => resetPPGArray m
  | Call_shutDownSensor => shutDownSensor m
  | Call_turnOnSensor => turnOnSensor m
  | Call_recordingStartCallback t d l =>
      match recordingStartCallback t d l (Some m) with
      | Some m' => m'
      | None => m
      end
  end.

Definition ppg_run (calls : list ppg_call) (m : PPGManager) : PPGManager :=
  fold_left ppg_step calls m.

(** ** PowerManager.cpp *)

(** A decimal literal [n / d] of type [double]. *)
Definition double_literal (n d : Z) : spec_float := F64.div (F64.of_int n) (F64.of_int d).

Definition ADC_MAX_VALUE : spec_float := F64.of_int 4096.

Definition ADC_VREF : spec_float := double_literal 36 10.

Definition VOLTAGE_DIVIDER : spec_float := double_literal 2961 1000.

(** [adcReading] is the value [analogRead(PIN_VBAT)] returns. *)
Definition readBatteryVoltage (adcReading : Z) : spec_float :=
  F32.of_double
    (F64.div
       (SFmul F64.prec F64.emax
          (SFmul F64.prec F64.emax VOLTAGE_DIVIDER ADC_VREF)
          (F64.of_int adcReading))
       ADC_MAX_VALUE).

(** The comparisons promote the [float] to [double]. *)
Definition classifyBatteryStatus (voltage : spec_float) : ascii :=
  let v := F64.of_float voltage in
  if SFltb v (double_literal 35 10) then "R"%char
  else if SFleb (double_literal 35 10) v && SFltb v (double_literal 39 10) then "Y"%char
  else "G"%char.

Definition readAndSaveBatteryStatus (adcReading : Z) (batteryStatus : ascii) : ascii :=
  classifyBatteryStatus (readBatteryVoltage adcReading).

(** ** buttonManager.cpp *)

Definition HIGH : bool := true.

Definition LOW : bool := false.

Record ButtonManager := mkButtonManager {
  isPressed : bool;
  isSecondPress : bool;
  longPressDetected : bool;
  doublePressDetected : bool;
  lastDebounceTime : Z;
  pressStartTime : Z;
  lastPressTime : Z;
  lockOut : bool;
  lastButtonState : bool
}.

Definition lockOutDelay : Z := 600.

(** The constructor. *)
Definition ButtonManager_new : ButtonManager :=
  mkButtonManager false false false false 0 0 0 false HIGH.

(** The part of [handleButton] after the lockout test.  [millis k] is the
    value the [k]-th call of [millis()] in this invocation returns, and
    [n] the number of calls made before this part. *)
Definition handleButton_read (millis : nat -> Z) (n : nat) (currentButtonState : bool)
    (b : ButtonManager) : ButtonManager :=
  let press := Bool.eqb currentButtonState LOW && Bool.eqb (lastButtonState b) HIGH in
  let b1 :=
    if press then
      mkButtonManager true (isSecondPress b) (longPressDetected b)
        (doublePressDetected b) (lastDebounceTime b) (millis n)
        (lastPressTime b) (lockOut b) (lastButtonState b)
    else b in
  let n1 := if press then S n else n in
  let b2 :=
    if Bool.eqb currentButtonState HIGH && Bool.eqb (lastButtonState b1) LOW && isPressed b1 then
      let pressDuration := wrapu32 (millis n1 - pressStartTime b1) in
      if pressDuration >? 800 then
        mkButtonManager false (isSecondPress b1) true
          (doublePressDetected b1) (lastDebounceTime b1) (pressStartTime b1)
          (lastPressTime b1) (lockOut b1) (lastButtonState b1)
      else if negb (isSecondPress b1) then
        mkButtonManager false true (longPressDetected b1)
          (doublePressDetected b1) (lastDebounceTime b1) (pressStartTime b1)
          (millis (S n1)) (lockOut b1) (lastButtonState b1)
      else if wrapu32 (millis (S n1) - lastPressTime b1) <=? 500 then
        mkButtonManager false false (longPressDetected b1)
          true (lastDebounceTime b1) (pressStartTime b1)
          (lastPressTime b1) (lockOut b1) (lastButtonState b1)
      else
        mkButtonManager false (isSecondPress b1) (longPressDetected b1)
          (doublePressDetected b1) (lastDebounceTime b1) (pressStartTime b1)
          (lastPressTime b1) (lockOut b1) (lastButtonState b1)
    else if isSecondPress b1 && (wrapu32 (millis n1 - lastPressTime b1) >? 500) then
      mkButtonManager (isPressed b1) false (longPressDetected b1)
        (doublePressDetected b1) (lastDebounceTime b1) (pressStartTime b1)
        (lastPressTime b1) (lockOut b1) (lastButtonState b1)
    else b1 in
  mkButtonManager (isPressed b2) (isSecondPress b2) (longPressDetected b2)
    (doublePressDetected b2) (lastDebounceTime b2) (pressStartTime b2)
    (lastPressTime b2) (lockOut b2) currentButtonState.

(** [currentButtonState] is the level [digitalRead(buttonPin)] returns. *)
Definition handleButton (millis : nat -> Z) (currentButtonState : bool)
    (b : ButtonManager) : ButtonManager :=
  if lockOut b then
    if wrapu32 (millis O - lastDebounceTime b) >? lockOutDelay then
      handleButton_read millis 1%nat currentButtonState
        (mkButtonManager (isPressed b) (isSecondPress b) (longPressDetected b)
           (doublePressDetected b) (lastDebounceTime b) (pressStartTime b)
           (lastPressTime b) false (lastButtonState b))
    else b
  else handleButton_read millis O currentButtonState b.

Definition isLongPress (b : ButtonManager) : bool * ButtonManager :=
  if longPressDetected b then
    (true,
     mkButtonManager (isPressed b) (isSecondPress b) false
       (doublePressDetected b) (lastDebounceTime b) (pressStartTime b)
       (lastPressTime b) (lockOut b) (lastButtonState b))
  else (false, b).

Definition isDoublePress (b : ButtonManager) : bool * ButtonManager :=
  if doublePressDetected b then
    (true,
     mkButtonManager (isPressed b) (isSecondPress b) (longPressDetected b)
       false (lastDebounceTime b) (pressStartTime b)
       (lastPressTime b) (lockOut b) (lastButtonState b))
  else (false, b).

(** The calls the main loop makes on a [ButtonManager]. *)
Inductive button_call :=
| Call_handleButton (millis : nat -> Z) (currentButtonState : bool)
| Call_isLongPress
| Call_isDoublePress.

Definition button_step (b : ButtonManager) (c : button_call) : ButtonManager :=
  match c with
  | Call_handleButton millis s => handleButton millis s b
  | Call_isLongPress => snd (isLongPress b)
  | Call_isDoublePress => snd (isDoublePress b)
  end.

(** Polling [handleButton] once per reading. *)
Definition poll (reads : list ((nat -> Z) * bool)) (b : ButtonManager) : ButtonManager :=
  fold_left (fun b r => handleButton (fst r) (snd r) b) reads b.

(** * Vocabulary of the properties *)

Definition nonzero (x : Z) : bool := negb (x =? 0).

(** The pairs of neighbours of a list, in order. *)
Fixpoint consecutive (l : list Z) : list (Z * Z) :=
  match l with
  | a :: (b :: _) as t => (a, b) :: consecutive t
  | _ => []
  end.

(** The interval between two peaks in milliseconds, with C's truncating
    division. *)
Definition rr_ms (fs : Z) (p : Z * Z) : Z := Z.quot ((snd p - fst p) * 1000) fs.

Definition rr_in_range (r : Z) : bool := (300 <=? r) && (r <=? 1500).

(** The [int] arithmetic of the source is defined on a pair of peaks:
    the product by 1000 of their distance does not overflow. *)
Definition rr_defined (p : Z * Z) : Prop :=
  INT_MIN <= (snd p - fst p) * 1000 <= INT_MAX.

(** Every two neighbours of [l] are more than [th] apart. *)
Definition refractory (th : Z) (l : list Z) : Prop :=
  Forall (fun p => snd p - fst p > th) (consecutive l).

(** What the refractory filter maintains: the counter is the fill level
    of the buffer, and the accepted indices are spaced. *)
Definition accepted_ok (th : Z) (st : list Z * Z) : Prop :=
  snd st = Arr.len (fst st) /\ refractory th (fst st).

(** The deviation [x - mean] of the only sample [x] of a one-sample
    segment, where [mean = (0 + x) / 1]. *)
Definition single_deviation (x : spec_float) : spec_float :=
  F32.sub x (F32.div (F32.add F32.zero x) (F32.of_int 1)).

(** [x] is a finite, non-zero binary32 number. *)
Definition finite_float (x : spec_float) : bool :=
  match x with
  | S754_finite _ m e => bounded 24 128 m e
  | _ => false
  end.

(** [heartRate = 60000.0 / avgRR] when the mean of the intervals is [r]. *)
Definition heart_rate_of (r : Z) : spec_float :=
  F32.of_double (F64.div (F64.of_int 60000) (F64.of_float (F32.of_int r))).

Definition is_finite (x : spec_float) : bool :=
  match x with
  | S754_zero _ | S754_finite _ _ _ => true
  | _ => false
  end.

(** The statistics of segment [i], as [statisticDetection] computes them. *)
Definition stats_of (signal : list spec_float) (seg : Z * Z)
    : spec_float * spec_float * spec_float :=
  segment_statistics signal (fst seg) (snd seg).

(** The three components of a (std, kurtosis, skewness) triple, of values
    or of arrays. *)
Definition std_of {A} (st : A * A * A) : A := fst (fst st).
Definition kurt_of {A} (st : A * A * A) : A := snd (fst st).
Definition skew_of {A} (st : A * A * A) : A := snd st.

(** The [float] values of the literals 0.9 and 0.4 of the caller. *)
Definition f_0_9 : spec_float := F32.of_double (F64.div (F64.of_int 9) (F64.of_int 10)).
Definition f_0_4 : spec_float := F32.of_double (F64.div (F64.of_int 4) (F64.of_int 10)).

(** The mean of [input[lo..i]] as the filter takes it: the samples are
    added in [float], from [input[i]] down to [input[lo]], and the sum is
    divided by their number. *)
Definition window_mean (input : list spec_float) (lo i : Z) : spec_float :=
  F32.div (fold_left F32.add (rev (Arr.slice F32.zero input lo (i + 1))) F32.zero)
          (F32.of_int (i - lo + 1)).

(** The thresholds of a call: [statisticThreshold] on the statistics of
    all its segments. *)
Definition segment_thresholds (data : list spec_float) (valleys : list (Z * Z))
    (ths : list spec_float) : thresholds :=
  let stats := map (stats_of data) valleys in
  statisticThreshold (map std_of stats) (map kurt_of stats) (map skew_of stats)
    (Arr.len valleys) ths.

(** A segment passes the test of step 3 on its own statistics. *)
Definition retained (t : thresholds) (data : list spec_float) (seg : Z * Z) : bool :=
  within_thresholds t (std_of (stats_of data seg)) (kurt_of (stats_of data seg))
    (skew_of (stats_of data seg)).

(** The samples [data[start..end]] of a segment, both ends included. *)
Definition segment_samples (data : list spec_float) (seg : Z * Z) : list spec_float :=
  Arr.slice F32.zero data (fst seg) (snd seg + 1).

Definition segment_length (seg : Z * Z) : Z := snd seg - fst seg + 1.

Definition zsum (l : list Z) : Z := fold_right Z.add 0 l.

(** ** Peaks, valleys and segments *)

(** The threshold of the peak scan: the mean of the signal times the
    threshold factor. *)
Definition peak_threshold (dataset : list spec_float) (size : Z)
    (threshold_factor : spec_float) : spec_float :=
  F32.mul (F32.div (signal_sum dataset size) (F32.of_int size)) threshold_factor.

(** The test of the peak scan at index [i]. *)
Definition peak_candidate (dataset : list spec_float) (thr : spec_float) (i : Z) : bool :=
  F32.ge (rdF dataset i) thr
  && F32.gt (rdF dataset i) (rdF dataset (i - 1))
  && F32.gt (rdF dataset i) (rdF dataset (i + 1)).

(** What the refractory filter keeps when the candidates come in increasing
    order: the accepted indices are candidates, all below the next index,
    and increasing. *)
Definition accepted_sorted (P : Z -> Prop) (bound : Z) (st : list Z * Z) : Prop :=
  snd st = Arr.len (fst st) /\
  Forall (fun p => P p /\ p < bound) (fst st) /\
  StronglySorted Z.lt (fst st).

Definition signal_mean (dataset : list spec_float) (size : Z) : spec_float :=
  F32.div (signal_sum dataset size) (F32.of_int size).

Definition at_or_below (dataset : list spec_float) (avg : spec_float) (v : Z) : Prop :=
  F32.le (rdF dataset v) avg = true.

Definition valley_scan_ok (dataset : list spec_float) (size : Z) (avg : spec_float)
    (i : Z) (st : list Z * Z * list Z * Z) : Prop :=
  let '(valleyList, nvalleys, window, window_size) := st in
  nvalleys = Arr.len valleyList /\
  0 <= window_size /\ nvalleys + window_size <= i /\
  Arr.len window = size /\
  Forall (fun v => (0 <= v /\ at_or_below dataset avg v) /\ v < i) valleyList /\
  StronglySorted Z.lt valleyList /\
  (forall k, 0 <= k < window_size ->
     0 <= rdZ window k < i /\ at_or_below dataset avg (rdZ window k) /\
     Forall (fun v => v < rdZ window k) valleyList).

Definition covered (th : Z) (l : list Z) (j : Z) : Prop :=
  In j l \/ exists p, In p l /\ p < j /\ j - p <= th.

Definition valley_of_run (dataset : list spec_float) (size : Z) (avg : spec_float)
    (v : Z) : Prop :=
  exists lo hi,
    0 <= lo <= v /\ v <= hi /\ hi + 1 < size /\
    (forall k, lo <= k <= hi -> at_or_below dataset avg k) /\
    (lo = 0 \/ F32.le (rdF dataset (lo - 1)) avg = false) /\
    F32.le (rdF dataset (hi + 1)) avg = false /\
    (forall k, lo <= k <= hi -> F32.lt (rdF dataset k) (rdF dataset v) = false).

Definition valley_runs_ok (dataset : list spec_float) (size : Z) (avg : spec_float)
    (i : Z) (st : list Z * Z * list Z * Z) : Prop :=
  let '(valleyList, nvalleys, window, window_size) := st in
  0 <= window_size <= i /\
  Arr.len window = size /\
  Forall (valley_of_run dataset size avg) valleyList /\
  (forall k, 0 <= k < window_size ->
     rdZ window k = i - window_size + k /\
     at_or_below dataset avg (i - window_size + k)) /\
  (i - window_size = 0 \/ F32.le (rdF dataset (i - window_size - 1)) avg = false).

Definition has_nan_statistic (data : list spec_float) (seg : Z * Z) : Prop :=
  std_of (stats_of data seg) = S754_nan \/
  kurt_of (stats_of data seg) = S754_nan \/
  skew_of (stats_of data seg) = S754_nan.

(** ** The device managers *)

(** The bytes of one reading in the stream. *)
Definition sample_bytes (ppgSignal : Z) : list Z :=
  [high_byte ppgSignal; low_byte ppgSignal; delimiter].

(** The pending batch holds whole samples, fewer than a packet's six. *)
Definition batch_aligned (m : PPGManager) : Prop :=
  exists k, 0 <= k < 6 /\ Arr.len (dataBatch m) = 3 * k.

(** [batchPPGData] on a sequence of readings, each with the state of the
    connection at its call. *)
Definition batch_all (readings : list (bool * Z)) (m : PPGManager) : PPGManager :=
  fold_left (fun m r => batchPPGData (fst r) (snd r) m) readings m.

(** A manager as the constructor leaves it, with a zeroed buffer, the sensor
    shut down and nothing pending or sent. *)
Definition ppg0 : PPGManager := mkPPGManager 0 0 false (repeat 0 750%nat) [] false [].

(** ** PPGManager: the recording window *)

(** Polling [realTimePPGRec] at the given numbers of milliseconds after
    [start], each with the state of the connection and the reading. *)
Definition poll_after (start : Z) (polls : list (Z * (bool * Z))) (m : PPGManager) : PPGManager :=
  fold_left (fun m p => realTimePPGRec (wrapu32 (start + fst p)) (fst (snd p)) (snd (snd p)) m)
    polls m.

(** ** ButtonManager: press patterns *)

(** A sequence of calls on a [ButtonManager]. *)
Definition button_run (calls : list button_call) (b : ButtonManager) : ButtonManager :=
  fold_left button_step calls b.

(** The state while the button is held after a press at [p]. *)
Definition held_since (p : Z) (long double : bool) (b : ButtonManager) : Prop :=
  isPressed b = true /\ pressStartTime b = p /\ lastButtonState b = LOW /\
  lockOut b = false /\ longPressDetected b = long /\ doublePressDetected b = double.

(** A clock that reads [t] at every call of [millis()] in one invocation. *)
Definition at_ms (t : Z) : nat -> Z := fun _ => t.

(** ** Samples *)

(** [x] with a negative zero replaced by [+0]: the value of [0.0f + x],
    the sum of the one sample [x] accumulated from [float sum = 0]. *)
Definition positive_zero (x : spec_float) : spec_float :=
  match x with
  | S754_zero _ => S754_zero false
  | _ => x
  end.

(** The run of [thresholdPeakDetection] stays inside the buffer it
    allocates: no more peaks are stored than [peakList] has cells. *)
Definition within_capacity (dataset : list spec_float) (size fs : Z)
    (threshold_factor min_distance : spec_float) : Prop :=
  snd (thresholdPeakDetection dataset size fs threshold_factor min_distance)
  <= max_peaks size.

(** * Properties *)

(** Arithmetic on the lengths of explicit lists. *)
Ltac len_lia := unfold Arr.len in *; simpl length in *; lia.

(** ** Arrays and loops *)

Section ArrayFacts.
Context {A : Type} (d : A).

Lemma rd_nth (a : list A) (i : Z) :
  0 <= i -> Arr.rd d a i = nth (Z.to_nat i) a d.
Proof.
  intros Hi. unfold Arr.rd.
  destruct (Z.ltb_spec i 0); [lia | reflexivity].
Qed.

Lemma rd_app_l (a b : list A) (i : Z) :
  0 <= i < Arr.len a -> Arr.rd d (a ++ b) i = Arr.rd d a i.
Proof.
  unfold Arr.len. intros Hi. rewrite !rd_nth by lia.
  apply app_nth1. lia.
Qed.

Lemma rd_app_last (a : list A) (v : A) :
  Arr.rd d (a ++ [v]) (Arr.len a) = v.
Proof.
  unfold Arr.len. rewrite rd_nth by lia.
  rewrite Nat2Z.id, app_nth2, Nat.sub_diag by lia. reflexivity.
Qed.

Lemma len_app (a b : list A) : Arr.len (a ++ b) = Arr.len a + Arr.len b.
Proof. unfold Arr.len. rewrite length_app. lia. Qed.

Lemma len_nonneg (a : list A) : 0 <= Arr.len a.
Proof. unfold Arr.len. lia. Qed.

Lemma upd_nat_length (a : list A) (n : nat) (v : A) :
  length (Arr.upd_nat a n v) = length a.
Proof.
  revert n. induction a as [|h t IH]; intros [|n]; simpl; auto.
Qed.

Lemma upd_length (a : list A) (i : Z) (v : A) :
  length (Arr.upd a i v) = length a.
Proof.
  unfold Arr.upd. destruct (i <? 0); auto using upd_nat_length.
Qed.

Lemma nth_upd_nat (a : list A) (n k : nat) (v : A) :
  nth k (Arr.upd_nat a n v) d =
  if (Nat.eqb k n && Nat.ltb n (length a))%bool then v else nth k a d.
Proof.
  revert n k. induction a as [|h t IH]; intros [|n] [|k]; simpl; auto.
  all: try (rewrite Bool.andb_false_r; reflexivity).
Qed.

Lemma rd_upd_same (a : list A) (i : Z) (v : A) :
  0 <= i < Arr.len a -> Arr.rd d (Arr.upd a i v) i = v.
Proof.
  unfold Arr.len, Arr.upd. intros Hi. rewrite rd_nth by lia.
  destruct (Z.ltb_spec i 0); [lia|].
  rewrite nth_upd_nat, Nat.eqb_refl.
  destruct (Nat.ltb_spec (Z.to_nat i) (length a)); [reflexivity | lia].
Qed.

Lemma rd_upd_other (a : list A) (i j : Z) (v : A) :
  i <> j -> Arr.rd d (Arr.upd a i v) j = Arr.rd d a j.
Proof.
  intros Hij. unfold Arr.rd, Arr.upd.
  destruct (Z.ltb_spec j 0); [reflexivity|].
  destruct (Z.ltb_spec i 0); [reflexivity|].
  rewrite nth_upd_nat.
  destruct (Nat.eqb_spec (Z.to_nat j) (Z.to_nat i)); [lia | reflexivity].
Qed.

Lemma zseq_length (lo : Z) (n : nat) : length (Arr.zseq lo n) = n.
Proof. revert lo. induction n; intros; simpl; auto. Qed.

Lemma zseq_snoc (lo : Z) (n : nat) :
  Arr.zseq lo (S n) = Arr.zseq lo n ++ [lo + Z.of_nat n].
Proof.
  revert lo. induction n as [|n IH]; intros lo.
  - simpl. f_equal. lia.
  - change (Arr.zseq lo (S (S n))) with (lo :: Arr.zseq (lo + 1) (S n)).
    rewrite IH. simpl. do 3 f_equal. lia.
Qed.

Lemma zseq_In (lo : Z) (n : nat) (i : Z) :
  In i (Arr.zseq lo n) <-> lo <= i < lo + Z.of_nat n.
Proof.
  revert lo. induction n as [|n IH]; intros lo; simpl.
  - lia.
  - rewrite IH. lia.
Qed.

Lemma range_In (lo hi i : Z) : In i (Arr.range lo hi) <-> lo <= i < hi.
Proof. unfold Arr.range. rewrite zseq_In. lia. Qed.

Lemma range_empty (lo hi : Z) : hi <= lo -> Arr.range lo hi = [].
Proof.
  intros H. unfold Arr.range. replace (Z.to_nat (hi - lo)) with O by lia.
  reflexivity.
Qed.

Lemma range_snoc (lo hi : Z) :
  lo <= hi -> Arr.range lo (hi + 1) = Arr.range lo hi ++ [hi].
Proof.
  intros H. unfold Arr.range.
  replace (Z.to_nat (hi + 1 - lo)) with (S (Z.to_nat (hi - lo))) by lia.
  rewrite zseq_snoc. do 2 f_equal. lia.
Qed.

Lemma range_cons (lo hi : Z) :
  lo < hi -> Arr.range lo hi = lo :: Arr.range (lo + 1) hi.
Proof.
  intros H. unfold Arr.range.
  replace (Z.to_nat (hi - lo)) with (S (Z.to_nat (hi - (lo + 1)))) by lia.
  reflexivity.
Qed.

Lemma range_length (lo hi : Z) : length (Arr.range lo hi) = Z.to_nat (hi - lo).
Proof. apply zseq_length. Qed.

(** Reading every index of an array gives the array back. *)
Lemma map_rd_zseq (a b : list A) :
  map (Arr.rd d (a ++ b)) (Arr.zseq (Arr.len a) (length b)) = b.
Proof.
  revert a. induction b as [|h t IH]; intros a; simpl; [reflexivity|].
  f_equal.
  - replace (a ++ h :: t) with ((a ++ [h]) ++ t) by (rewrite <- app_assoc; reflexivity).
    rewrite rd_app_l by (rewrite len_app; unfold Arr.len; simpl; lia).
    apply rd_app_last.
  - replace (a ++ h :: t) with ((a ++ [h]) ++ t) by (rewrite <- app_assoc; reflexivity).
    replace (Arr.len a + 1) with (Arr.len (a ++ [h]))
      by (rewrite len_app; reflexivity).
    apply IH.
Qed.

Lemma slice_all (a : list A) : Arr.slice d a 0 (Arr.len a) = a.
Proof.
  unfold Arr.slice, Arr.range, Arr.len.
  rewrite Z.sub_0_r, Nat2Z.id.
  apply (map_rd_zseq [] a).
Qed.

End ArrayFacts.

Section LoopFacts.
Context {S : Type}.

(** A counted loop is a left fold over its indices. *)
Lemma for_loop_fold (n : nat) (lo : Z) (body : Z -> S -> S) (s : S) :
  for_loop n lo body s = fold_left (fun s i => body i s) (Arr.zseq lo n) s.
Proof.
  revert lo s. induction n as [|n IH]; intros lo s; simpl; auto.
Qed.

Lemma for_range_fold (lo hi : Z) (body : Z -> S -> S) (s : S) :
  for_range lo hi body s = fold_left (fun s i => body i s) (Arr.range lo hi) s.
Proof. apply for_loop_fold. Qed.

Lemma for_range_empty (lo hi : Z) (body : Z -> S -> S) (s : S) :
  hi <= lo -> for_range lo hi body s = s.
Proof.
  intros H. rewrite for_range_fold, range_empty by assumption. reflexivity.
Qed.

Lemma for_range_last (lo hi : Z) (body : Z -> S -> S) (s : S) :
  lo <= hi ->
  for_range lo (hi + 1) body s = body hi (for_range lo hi body s).
Proof.
  intros H. rewrite !for_range_fold, range_snoc by assumption.
  rewrite fold_left_app. reflexivity.
Qed.

(** The loop-invariant rule. *)
Lemma for_range_inv (P : Z -> S -> Prop) (lo hi : Z) (body : Z -> S -> S) (s : S) :
  lo <= hi ->
  P lo s ->
  (forall i s, lo <= i < hi -> P i s -> P (i + 1) (body i s)) ->
  P hi (for_range lo hi body s).
Proof.
  intros Hle H0 Hstep.
  assert (G : forall n : nat, lo + Z.of_nat n <= hi ->
            P (lo + Z.of_nat n) (for_range lo (lo + Z.of_nat n) body s)).
  { induction n as [|n IH]; intros Hn.
    - rewrite Z.add_0_r, for_range_empty by lia. exact H0.
    - replace (lo + Z.of_nat (Datatypes.S n)) with (lo + Z.of_nat n + 1) by lia.
      rewrite for_range_last by lia.
      apply Hstep; [lia|]. apply IH. lia. }
  specialize (G (Z.to_nat (hi - lo))).
  replace (lo + Z.of_nat (Z.to_nat (hi - lo))) with hi in G by lia.
  apply G. lia.
Qed.

Lemma for_range_ext (lo hi : Z) (f g : Z -> S -> S) (s : S) :
  (forall i s, lo <= i < hi -> f i s = g i s) ->
  for_range lo hi f s = for_range lo hi g s.
Proof.
  intros H. rewrite !for_range_fold.
  assert (G : forall l s, (forall i, In i l -> lo <= i < hi) ->
            fold_left (fun s i => f i s) l s = fold_left (fun s i => g i s) l s).
  { induction l as [|x l IH]; intros s0 Hl; simpl; [reflexivity|].
    rewrite H by (apply Hl; left; reflexivity).
    apply IH. intros i Hi. apply Hl. right. exact Hi. }
  apply G. intros i Hi. apply range_In in Hi. exact Hi.
Qed.

End LoopFacts.

(** A loop that appends [g i] to a buffer at step [i] and advances the
    fill counter by as much builds the concatenation of the [g i]. *)
Lemma for_range_append {A} (g : Z -> list A) (lo hi : Z)
    (body : Z -> list A * Z -> list A * Z) (buf : list A) (n : Z) :
  (forall i b k, lo <= i < hi -> body i (b, k) = (b ++ g i, k + Arr.len (g i))) ->
  for_range lo hi body (buf, n) =
  (buf ++ flat_map g (Arr.range lo hi), n + Arr.len (flat_map g (Arr.range lo hi))).
Proof.
  intros Hbody.
  destruct (Z.le_gt_cases lo hi) as [Hle|Hgt].
  - apply (for_range_inv
             (fun i st => st = (buf ++ flat_map g (Arr.range lo i),
                                n + Arr.len (flat_map g (Arr.range lo i))))).
    + exact Hle.
    + rewrite range_empty by lia. simpl. rewrite app_nil_r.
      unfold Arr.len. simpl. f_equal. lia.
    + intros i st Hi ->. rewrite Hbody by exact Hi.
      rewrite range_snoc by lia. rewrite flat_map_app. simpl.
      rewrite app_nil_r, app_assoc, !len_app. f_equal. lia.
  - rewrite for_range_empty, range_empty by lia. simpl.
    rewrite app_nil_r. unfold Arr.len. simpl. f_equal. lia.
Qed.

(** A loop that reads [a[i]] at step [i] over the whole array is a fold
    over the array. *)
Lemma for_range_array {A S} (d : A) (f : A -> S -> S) (a : list A) (s : S) :
  for_range 0 (Arr.len a) (fun i s => f (Arr.rd d a i) s) s =
  fold_left (fun s x => f x s) a s.
Proof.
  rewrite for_range_fold.
  transitivity (fold_left (fun s x => f x s) (Arr.slice d a 0 (Arr.len a)) s).
  - unfold Arr.slice. generalize (Arr.range 0 (Arr.len a)). intros l. revert s.
    induction l as [|i l IH]; intros s; simpl; auto.
  - rewrite slice_all. reflexivity.
Qed.

(** ** removeZero (C9) *)

Lemma count_nonzero_fold (l : list Z) (c : Z) :
  fold_left (fun count x => if nonzero x then count + 1 else count) l c =
  c + Arr.len (filter nonzero l).
Proof.
  revert c. induction l as [|x l IH]; intros c; simpl.
  - unfold Arr.len. simpl. lia.
  - rewrite IH. destruct (nonzero x); len_lia.
Qed.

Lemma copy_nonzero_fold (l : list Z) (out : list spec_float) (j : Z) :
  fold_left (fun (st : list spec_float * Z) x =>
               let '(output, j) := st in
               if nonzero x then (output ++ [F32.of_int x], j + 1) else (output, j))
            l (out, j) =
  (out ++ map F32.of_int (filter nonzero l), j + Arr.len (filter nonzero l)).
Proof.
  revert out j. induction l as [|x l IH]; intros out j; simpl.
  - rewrite app_nil_r. unfold Arr.len. simpl. f_equal. lia.
  - destruct (nonzero x); rewrite IH; simpl.
    + rewrite <- app_assoc. simpl. f_equal. unfold Arr.len. simpl length. lia.
    + reflexivity.
Qed.

(** C9.  On an array of [size] elements [removeZero] returns exactly the
    non-zero elements, converted to [float], in their original order, and
    reports as new size the number of non-zero elements. *)
Theorem removeZero_keeps_nonzero (input : list Z) :
  removeZero input (Arr.len input) =
  (map F32.of_int (filter nonzero input), Arr.len (filter nonzero input)).
Proof.
  unfold removeZero.
  rewrite (for_range_array 0 (fun x count => if nonzero x then count + 1 else count)).
  rewrite (for_range_array 0
             (fun x (st : list spec_float * Z) =>
                let '(output, j) := st in
                if nonzero x then (output ++ [F32.of_int x], j + 1) else (output, j))).
  rewrite copy_nonzero_fold, count_nonzero_fold. reflexivity.
Qed.

(** ** pairValley (C7) *)

Lemma for_range_collect {A} (f : Z -> A) (lo hi : Z) (acc : list A) :
  for_range lo hi (fun i out => out ++ [f i]) acc = acc ++ map f (Arr.range lo hi).
Proof.
  rewrite for_range_fold. generalize (Arr.range lo hi). intros l. revert acc.
  induction l as [|i l IH]; intros acc; simpl.
  - rewrite app_nil_r. reflexivity.
  - rewrite IH, <- app_assoc. reflexivity.
Qed.

Lemma nth_zseq (lo : Z) (n k : nat) (d : Z) :
  (k < n)%nat -> nth k (Arr.zseq lo n) d = lo + Z.of_nat k.
Proof.
  revert lo k. induction n as [|n IH]; intros lo k Hk; [lia|].
  destruct k as [|k]; simpl.
  - lia.
  - rewrite IH by lia. lia.
Qed.

Lemma rd_map_range {A} (d : A) (f : Z -> A) (lo hi i : Z) :
  0 <= i < hi - lo -> Arr.rd d (map f (Arr.range lo hi)) i = f (lo + i).
Proof.
  intros Hi. rewrite rd_nth by lia.
  rewrite nth_indep with (d' := f 0)
    by (rewrite length_map, range_length; lia).
  rewrite map_nth. unfold Arr.range. rewrite nth_zseq by lia.
  f_equal. lia.
Qed.

(** C7.  On [N] valleys [pairValley] produces exactly [max (N-1) 0]
    segments, segment [i] being [(valleys[i], valleys[i+1])] for every
    [i] in [[0, N-2]]; with no valley or one valley the result is the
    empty list of segments. *)
Theorem pairValley_segments (valleys : list Z) :
  let N := Arr.len valleys in
  Arr.len (pairValley valleys N) = Z.max (N - 1) 0 /\
  (forall i, 0 <= i <= N - 2 ->
     rdP (pairValley valleys N) i = (rdZ valleys i, rdZ valleys (i + 1))) /\
  (N <= 1 -> pairValley valleys N = []).
Proof.
  intros N. unfold pairValley.
  rewrite (for_range_collect (fun i => (rdZ valleys i, rdZ valleys (i + 1)))).
  simpl app. repeat split.
  - unfold Arr.len at 1. rewrite length_map, range_length. lia.
  - intros i Hi. unfold rdP. rewrite rd_map_range by lia. reflexivity.
  - intros HN. rewrite range_empty by lia. reflexivity.
Qed.

Lemma pairValley_segments_witness :
  Arr.len (pairValley [12; 31; 50] 3) = 2 /\
  rdP (pairValley [12; 31; 50] 3) 1 = (31, 50) /\
  pairValley [12] 1 = [].
Proof.
  split; [|split].
  - exact (proj1 (pairValley_segments [12; 31; 50])).
  - apply (proj1 (proj2 (pairValley_segments [12; 31; 50])) 1).
    len_lia.
  - apply (proj2 (proj2 (pairValley_segments [12]))).
    len_lia.
Defined.

(** ** The placeholder overload of eliminateNoiseInTime (C10) *)

(** C10.  The simplified (void) overload of [eliminateNoiseInTime] does
    nothing: whatever its arguments, the data buffer and the threshold
    array are left as they were and no result is produced. *)
Theorem eliminateNoiseInTime_basic_noop (size fs cycle : Z) (st : noise_buffers) :
  eliminateNoiseInTime_basic size fs cycle st = (tt, st).
Proof. reflexivity. Qed.

Lemma filter_map_flat_map {A B C} (p : C -> bool) (f : B -> C) (h : A -> B)
    (l : list A) :
  filter p (map f (map h l)) =
  flat_map (fun i => if p (f (h i)) then [f (h i)] else []) l.
Proof.
  induction l as [|x l IH]; simpl; [reflexivity|].
  destruct (p (f (h x))); simpl; rewrite IH; reflexivity.
Qed.

(** ** calcRrIntervals (C4) *)

Lemma wrap32_small (z : Z) : INT_MIN <= z <= INT_MAX -> wrap32 z = z.
Proof.
  unfold wrap32, INT_MIN, INT_MAX. intros H.
  rewrite Z.mod_small by lia. lia.
Qed.

Lemma rd_cons {A} (d : A) (x : A) (a : list A) (i : Z) :
  0 <= i -> Arr.rd d (x :: a) (i + 1) = Arr.rd d a i.
Proof.
  intros Hi. rewrite !rd_nth by lia.
  replace (Z.to_nat (i + 1)) with (S (Z.to_nat i)) by lia. reflexivity.
Qed.

Lemma map_zseq_shift {A} (f : Z -> A) (lo : Z) (n : nat) :
  map f (Arr.zseq (lo + 1) n) = map (fun i => f (i + 1)) (Arr.zseq lo n).
Proof.
  revert lo. induction n as [|n IH]; intros lo; simpl; [reflexivity|].
  rewrite IH. reflexivity.
Qed.

Lemma consecutive_range (l : list Z) :
  map (fun i => (rdZ l (i - 1), rdZ l i)) (Arr.range 1 (Arr.len l)) = consecutive l.
Proof.
  induction l as [|a t IH]; [reflexivity|].
  destruct t as [|b t']; [reflexivity|].
  rewrite range_cons by len_lia.
  change (consecutive (a :: b :: t')) with ((a, b) :: consecutive (b :: t')).
  rewrite <- IH. cbn [map]. f_equal. unfold Arr.range.
  replace (Z.to_nat (Arr.len (a :: b :: t') - (1 + 1)))
    with (Z.to_nat (Arr.len (b :: t') - 1)) by len_lia.
  rewrite map_zseq_shift. apply map_ext_in.
  intros i Hi. apply zseq_In in Hi. unfold rdZ.
  rewrite (rd_cons 0 a (b :: t') i) by lia.
  replace (i + 1 - 1) with (i - 1 + 1) by lia.
  rewrite (rd_cons 0 a (b :: t') (i - 1)) by lia. reflexivity.
Qed.

Lemma rr_interval_no_wrap (fs : Z) (p : Z * Z) :
  0 < fs -> rr_defined p ->
  wrap32 (Z.quot (wrap32 (wrap32 (snd p - fst p) * 1000)) fs) = rr_ms fs p.
Proof.
  unfold rr_defined, rr_ms, INT_MIN, INT_MAX. intros Hfs Hp.
  rewrite (wrap32_small (snd p - fst p)) by (unfold INT_MIN, INT_MAX; lia).
  rewrite (wrap32_small ((snd p - fst p) * 1000)) by (unfold INT_MIN, INT_MAX; lia).
  apply wrap32_small.
  set (x := (snd p - fst p) * 1000) in *.
  unfold INT_MIN, INT_MAX.
  destruct (Z.le_gt_cases 0 x) as [Hpos|Hneg].
  - pose proof (Z.quot_pos x fs Hpos Hfs).
    pose proof (Z.quot_le_upper_bound x fs x Hfs ltac:(nia)). lia.
  - rewrite <- (Z.opp_involutive x), Z.quot_opp_l by lia.
    pose proof (Z.quot_pos (- x) fs ltac:(lia) Hfs).
    pose proof (Z.quot_le_upper_bound (- x) fs (- x) Hfs ltac:(nia)). lia.
Qed.

(** The arithmetic is defined, in particular, on the indices of any buffer
    of at most [INT_MAX / 1000] samples. *)
Lemma rr_defined_of_indices (peaks : list Z) :
  Forall (fun p => 0 <= p <= 2147483) peaks ->
  Forall rr_defined (consecutive peaks).
Proof.
  induction peaks as [|a t IH]; intros H; [constructor|].
  destruct t as [|b t']; [constructor|].
  change (consecutive (a :: b :: t')) with ((a, b) :: consecutive (b :: t')).
  inversion H as [|? ? Ha Ht]; subst.
  constructor; [|apply IH; exact Ht].
  inversion Ht as [|? ? Hb _]; subst.
  unfold rr_defined, INT_MIN, INT_MAX. cbn [fst snd]. lia.
Qed.

(** A buffer that is filled to its count is unchanged by the final
    [realloc], unless the count is 0. *)
Lemma realloc_full {A} (p : list A) :
  realloc p (Arr.len p) = if Arr.len p =? 0 then None else Some p.
Proof.
  unfold realloc. destruct (Arr.len p =? 0); [reflexivity|].
  unfold Arr.len. rewrite Nat2Z.id, firstn_all. reflexivity.
Qed.

(** C4.  For a sampling rate [fs > 0], on every peak sequence on which the
    [int] arithmetic of the source is defined (no product
    [(index_j - index_i) * 1000] leaves the 32-bit range),
    [calcRrIntervals] computes for each pair of consecutive peaks the
    interval [(index_j - index_i) * 1000 / fs] and returns exactly those
    that lie in [[300, 1500]], in order, with their count; none is clamped.
    When no interval is kept, in particular with fewer than two peaks, it
    returns the NULL array with count 0. *)
Theorem calcRrIntervals_spec (peaks : list Z) (fs : Z) :
  0 < fs ->
  Forall rr_defined (consecutive peaks) ->
  let kept := filter rr_in_range (map (rr_ms fs) (consecutive peaks)) in
  calcRrIntervals peaks (Arr.len peaks) fs =
    (if Arr.len kept =? 0 then None else Some kept, Arr.len kept) /\
  Forall (fun r => 300 <= r <= 1500) kept /\
  (Arr.len peaks < 2 -> kept = []).
Proof.
  intros Hfs Hok kept.
  assert (Hshort : Arr.len peaks < 2 -> kept = []).
  { intros Hlt. unfold kept.
    destruct peaks as [|a [|b t]]; try reflexivity.
    len_lia. }
  split; [|split].
  - unfold calcRrIntervals.
    destruct (Z.ltb_spec (Arr.len peaks) 2) as [Hlt|Hge].
    + rewrite (Hshort Hlt). reflexivity.
    + rewrite (for_range_append
                 (fun i => if rr_in_range (rr_ms fs (rdZ peaks (i - 1), rdZ peaks i))
                           then [rr_ms fs (rdZ peaks (i - 1), rdZ peaks i)] else [])).
      * assert (E : flat_map
                      (fun i => if rr_in_range (rr_ms fs (rdZ peaks (i - 1), rdZ peaks i))
                                then [rr_ms fs (rdZ peaks (i - 1), rdZ peaks i)] else [])
                      (Arr.range 1 (Arr.len peaks)) = kept).
        { unfold kept. rewrite <- consecutive_range.
          rewrite (filter_map_flat_map rr_in_range (rr_ms fs)
                     (fun i => (rdZ peaks (i - 1), rdZ peaks i))).
          reflexivity. }
        rewrite E. cbn [app]. rewrite Z.add_0_l.
        rewrite realloc_full. reflexivity.
      * intros i b k Hi.
        assert (Hp : rr_defined (rdZ peaks (i - 1), rdZ peaks i)).
        { rewrite Forall_forall in Hok. apply Hok.
          rewrite <- consecutive_range.
          apply (in_map (fun i => (rdZ peaks (i - 1), rdZ peaks i))).
          apply range_In. exact Hi. }
        pose proof (rr_interval_no_wrap fs _ Hfs Hp) as E. cbn [fst snd] in E.
        rewrite E. unfold rr_in_range.
        rewrite (Z.geb_leb (rr_ms fs (rdZ peaks (i - 1), rdZ peaks i)) 300).
        destruct ((300 <=? _) && (_ <=? 1500)).
        -- reflexivity.
        -- rewrite app_nil_r. f_equal. unfold Arr.len. simpl. lia.
  - apply Forall_forall. intros r Hr. unfold kept in Hr.
    apply filter_In in Hr. destruct Hr as [_ Hr].
    unfold rr_in_range in Hr. apply andb_prop in Hr. lia.
  - exact Hshort.
Qed.

Lemma calcRrIntervals_spec_witness :
  calcRrIntervals [0; 100; 130; 330; 640] 5 200 = (Some [500; 1000], 2).
Proof.
  refine (proj1 (calcRrIntervals_spec [0; 100; 130; 330; 640] 200 _ _)).
  - lia.
  - repeat (apply Forall_cons;
            [unfold rr_defined, INT_MIN, INT_MAX; cbn [fst snd]; lia|]).
    apply Forall_nil.
Defined.

(** The claim as the documentation states it, for every peak sequence,
    fails: between the peaks 0 and 4294968 at [fs = 1] the interval
    [(index_j - index_i) * 1000 / fs] is 4294968000 ms, outside
    [[300, 1500]], yet the 32-bit product wraps to 704 and the function
    keeps that value. *)
Lemma calcRrIntervals_keeps_wrapped_interval :
  map (rr_ms 1) (consecutive [0; 4294968]) = [4294968000] /\
  filter rr_in_range (map (rr_ms 1) (consecutive [0; 4294968])) = [] /\
  calcRrIntervals [0; 4294968] 2 1 = (Some [704], 1).
Proof. repeat split; vm_compute; reflexivity. Qed.

(** ** The refractory invariant (C3) *)

Lemma for_range_preserve {S} (P : S -> Prop) (lo hi : Z) (body : Z -> S -> S) (s : S) :
  P s ->
  (forall i s, lo <= i < hi -> P s -> P (body i s)) ->
  P (for_range lo hi body s).
Proof.
  intros H0 Hstep.
  destruct (Z.le_gt_cases lo hi) as [Hle|Hgt].
  - apply (for_range_inv (fun _ => P)); auto.
  - rewrite for_range_empty by lia. exact H0.
Qed.

Lemma refractory_snoc (th c : Z) (l : list Z) :
  refractory th l ->
  l = [] \/ c - rdZ l (Arr.len l - 1) > th ->
  refractory th (l ++ [c]).
Proof.
  unfold refractory. induction l as [|a t IH]; intros Hl Hc.
  - constructor.
  - destruct t as [|b t'].
    + destruct Hc as [Hc|Hc]; [discriminate|].
      simpl. constructor; [exact Hc | constructor].
    + change (consecutive ((a :: b :: t') ++ [c]))
        with ((a, b) :: consecutive ((b :: t') ++ [c])).
      change (consecutive (a :: b :: t')) with ((a, b) :: consecutive (b :: t')) in Hl.
      inversion Hl as [|? ? Hab Ht]; subst.
      constructor; [exact Hab|].
      apply IH; [exact Ht|]. right.
      destruct Hc as [Hc|Hc]; [discriminate|].
      replace (Arr.len (a :: b :: t') - 1) with (Arr.len (b :: t') - 1 + 1) in Hc
        by len_lia.
      unfold rdZ in *. rewrite rd_cons in Hc by len_lia.
      exact Hc.
Qed.

Lemma accept_if_far_ok (th c : Z) (st : list Z * Z) :
  accepted_ok th st -> accepted_ok th (accept_if_far th c st).
Proof.
  destruct st as [accepted n]. unfold accepted_ok, accept_if_far. simpl.
  intros [Hn Hr]. subst n.
  destruct (Z.eqb_spec (Arr.len accepted) 0) as [H0|H0]; simpl.
  - split; [rewrite len_app; reflexivity|].
    apply refractory_snoc; [exact Hr|]. left.
    destruct accepted; [reflexivity | unfold Arr.len in H0; simpl in H0; lia].
  - destruct (Z.gtb_spec (c - rdZ accepted (Arr.len accepted - 1)) th) as [Hgt|Hle]; simpl.
    + split; [rewrite len_app; reflexivity|].
      apply refractory_snoc; [exact Hr|]. right. lia.
    + split; [reflexivity | exact Hr].
Qed.



(** ** Facts of binary32 arithmetic *)

Lemma div_eucl_exact (a b q : Z) : 0 < b -> a = q * b -> Z.div_eucl a b = (q, 0).
Proof.
  intros Hb ->.
  pose proof (Z.div_mul q b ltac:(lia)) as Hq.
  pose proof (Z.mod_mul q b ltac:(lia)) as Hr.
  unfold Z.div, Z.modulo in Hq, Hr.
  destruct (Z.div_eucl (q * b) b) as [q' r']. congruence.
Qed.

(** A finite binary32 value is subnormal-aligned ([e = -149]) or has a
    full 24-bit mantissa. *)
Lemma canonical_cases (m : positive) (e : Z) :
  bounded 24 128 m e = true ->
  e <= 104 /\
  ((e = -149 /\ Zpos (digits2_pos m) <= 24) \/ (-149 < e /\ Zpos (digits2_pos m) = 24)).
Proof.
  unfold bounded, canonical_mantissa, fexp, emin. intros H.
  apply andb_prop in H. destruct H as [H1 H2].
  apply Z.eqb_eq in H1. apply Z.leb_le in H2. lia.
Qed.

(** Rounding leaves a value that is already a binary32 number alone. *)
Lemma binary_round_aux_canonical (s : bool) (m : positive) (e : Z) :
  bounded 24 128 m e = true ->
  binary_round_aux 24 128 s (Zpos m) e loc_Exact = S754_finite s m e.
Proof.
  intros Hb. pose proof Hb as Hc.
  unfold bounded, canonical_mantissa in Hc. apply andb_prop in Hc.
  destruct Hc as [Hc He]. apply Z.eqb_eq in Hc.
  unfold binary_round_aux, shr_fexp. cbn [Zdigits2].
  rewrite Hc, Z.sub_diag.
  cbn [shr shr_record_of_loc shr_m loc_of_shr_record round_nearest_even Zdigits2].
  rewrite Hc, Z.sub_diag. cbn [shr shr_record_of_loc shr_m].
  rewrite He. reflexivity.
Qed.

(** [x / 1.0f = x] for every finite [x]. *)
Lemma F32_div_one (s : bool) (m : positive) (e : Z) :
  bounded 24 128 m e = true ->
  F32.div (S754_finite s m e) (F32.of_int 1) = S754_finite s m e.
Proof.
  intros Hb. destruct (canonical_cases m e Hb) as [He Hcases].
  change (F32.of_int 1) with (S754_finite false 8388608 (-23)).
  unfold F32.div, SFdiv, SFdiv_core_binary.
  change (Zdigits2 8388608) with 24. cbn [Zdigits2].
  rewrite xorb_false_r.
  destruct Hcases as [[He0 Hd]|[He0 Hd]].
  - replace (Z.min _ _) with e by (unfold fexp, emin, F32.prec, F32.emax; lia).
    replace (e - -23 - e) with 23 by lia.
    rewrite (div_eucl_exact _ 8388608 (Zpos m))
      by (try rewrite Z.shiftl_mul_pow2; lia).
    change (new_location 8388608 0) with loc_Exact.
    apply binary_round_aux_canonical. exact Hb.
  - replace (Z.min _ _) with (e - 1) by (unfold fexp, emin, F32.prec, F32.emax; lia).
    replace (e - -23 - (e - 1)) with 24 by lia.
    rewrite (div_eucl_exact _ 8388608 (Zpos m~0))
      by (try rewrite Z.shiftl_mul_pow2; lia).
    change (new_location 8388608 0) with loc_Exact.
    unfold binary_round_aux, shr_fexp. cbn [Zdigits2 digits2_pos].
    rewrite Pos2Z.inj_succ, Hd.
    replace (fexp F32.prec F32.emax (Z.succ 24 + (e - 1)) - (e - 1)) with 1
      by (unfold fexp, emin, F32.prec, F32.emax; lia).
    cbn [shr shr_record_of_loc iter_pos shr_1 shr_m loc_of_shr_record
         round_nearest_even Zdigits2 orb].
    rewrite Hd.
    replace (fexp F32.prec F32.emax (24 + (e - 1 + 1)) - (e - 1 + 1)) with 0
      by (unfold fexp, emin, F32.prec, F32.emax; lia).
    cbn [shr shr_record_of_loc shr_m].
    replace (e - 1 + 1) with e by lia.
    replace (e <=? F32.emax - F32.prec) with true
      by (symmetry; apply Z.leb_le; unfold F32.prec, F32.emax; lia).
    reflexivity.
Qed.

(** [x - x = +0] for every finite [x]. *)
Lemma F32_sub_self (s : bool) (m : positive) (e : Z) :
  F32.sub (S754_finite s m e) (S754_finite s m e) = S754_zero false.
Proof.
  unfold F32.sub, SFsub. rewrite Z.min_id. unfold shl_align.
  rewrite Z.sub_diag. cbn [fst]. reflexivity.
Qed.

Lemma single_deviation_cases (x : spec_float) :
  F32.valid x = true ->
  single_deviation x = S754_zero false \/
  single_deviation x = S754_zero true \/
  single_deviation x = S754_nan.
Proof.
  intros Hv. unfold single_deviation. destruct x as [s|s| |s m e].
  - destruct s; [right; left | left]; reflexivity.
  - destruct s; right; right; reflexivity.
  - right; right; reflexivity.
  - left. change (F32.add F32.zero (S754_finite s m e)) with (S754_finite s m e).
    rewrite F32_div_one by exact Hv. apply F32_sub_self.
Qed.

Lemma single_deviation_finite (x : spec_float) :
  F32.valid x = true ->
  (exists s m e, x = S754_finite s m e) \/ x = S754_zero false ->
  single_deviation x = S754_zero false.
Proof.
  intros Hv [(s & m & e & ->)| ->]; [|reflexivity].
  unfold single_deviation.
  change (F32.add F32.zero (S754_finite s m e)) with (S754_finite s m e).
  rewrite F32_div_one by exact Hv. apply F32_sub_self.
Qed.

(** ** statisticDetection on a one-sample segment (C2) *)

Lemma for_range_single {S} (lo : Z) (body : Z -> S -> S) (s : S) :
  for_range lo (lo + 1) body s = body lo s.
Proof.
  unfold for_range. replace (Z.to_nat (lo + 1 - lo)) with 1%nat by lia.
  reflexivity.
Qed.

Lemma segment_statistics_single (signal : list spec_float) (k : Z) :
  F32.valid (rdF signal k) = true ->
  let '(std, kurtosis, skew) := segment_statistics signal k k in
  kurtosis = S754_nan /\ skew = S754_nan /\
  (is_finite (rdF signal k) = true -> std = S754_zero false).
Proof.
  intros Hv. unfold segment_statistics.
  replace (k - k + 1) with 1 by lia.
  rewrite !for_range_single. cbv zeta.
  fold (single_deviation (rdF signal k)).
  assert (Hfin : is_finite (rdF signal k) = true ->
                 single_deviation (rdF signal k) = S754_zero false
                 \/ single_deviation (rdF signal k) = S754_zero true).
  { destruct (rdF signal k) as [s|s| |s m e] eqn:E; try discriminate.
    - intros _. destruct s; [right | left]; reflexivity.
    - intros _. left. apply single_deviation_finite; [exact Hv|].
      left. eauto. }
  destruct (single_deviation_cases _ Hv) as [Hd|[Hd|Hd]]; rewrite Hd.
  - repeat split; reflexivity.
  - repeat split; reflexivity.
  - repeat split; try reflexivity.
    intros Hf. destruct (Hfin Hf) as [H|H]; congruence.
Qed.

(** [statisticDetection] stores at index [i] of the three output arrays
    the statistics of segment [i], and leaves their lengths alone. *)
Lemma statisticDetection_rd (signal : list spec_float) (size fs : Z)
    (valleys : list (Z * Z)) (n : Z) (stds kurtosiss skews : list spec_float) :
  0 <= n -> n <= Arr.len stds -> n <= Arr.len kurtosiss -> n <= Arr.len skews ->
  let out := statisticDetection signal size fs valleys n stds kurtosiss skews in
  (length (std_of out) = length stds /\
   length (kurt_of out) = length kurtosiss /\
   length (skew_of out) = length skews) /\
  forall i, 0 <= i < n ->
    rdF (std_of out) i = std_of (stats_of signal (rdP valleys i)) /\
    rdF (kurt_of out) i = kurt_of (stats_of signal (rdP valleys i)) /\
    rdF (skew_of out) i = skew_of (stats_of signal (rdP valleys i)).
Proof.
  intros Hn Hs Hk Hsk out. unfold out, statisticDetection.
  apply (for_range_inv
    (fun j st =>
       (length (std_of st) = length stds /\
        length (kurt_of st) = length kurtosiss /\
        length (skew_of st) = length skews) /\
       forall i, 0 <= i < j ->
         rdF (std_of st) i = std_of (stats_of signal (rdP valleys i)) /\
         rdF (kurt_of st) i = kurt_of (stats_of signal (rdP valleys i)) /\
         rdF (skew_of st) i = skew_of (stats_of signal (rdP valleys i)))).
  - exact Hn.
  - split; [auto|]. intros i Hi. lia.
  - intros j [[s k] sk] Hj [(Ls & Lk & Lsk) IH].
    unfold std_of, kurt_of, skew_of in *. cbn [fst snd] in Ls, Lk, Lsk, IH.
    fold (stats_of signal (rdP valleys j)).
    destruct (stats_of signal (rdP valleys j)) as [[a b] c] eqn:E.
    cbn [fst snd]. rewrite !upd_length. split; [auto|].
    intros i Hi. unfold rdF.
    destruct (Z.eq_dec i j) as [Heq|Hne].
    + subst i. rewrite !rd_upd_same by len_lia.
      rewrite E. auto.
    + rewrite !rd_upd_other by lia. apply IH. lia.
Qed.

(** C2, as the code has it.  For a segment of one sample ([start = end]),
    whatever the sample, [statisticDetection] does not exclude the segment
    and has no fallback: the kurtosis and the skewness it stores are the
    NaN of the division 0/0 by the zero variance; the standard deviation it
    stores is 0 when the sample is finite. *)
Theorem statisticDetection_single_sample (signal : list spec_float) (size fs : Z)
    (valleys : list (Z * Z)) (stds kurtosiss skews : list spec_float) (i k : Z) :
  Arr.len valleys <= Arr.len stds ->
  Arr.len valleys <= Arr.len kurtosiss ->
  Arr.len valleys <= Arr.len skews ->
  0 <= i < Arr.len valleys ->
  rdP valleys i = (k, k) ->
  F32.valid (rdF signal k) = true ->
  let out :=
    statisticDetection signal size fs valleys (Arr.len valleys) stds kurtosiss skews in
  rdF (kurt_of out) i = S754_nan /\
  rdF (skew_of out) i = S754_nan /\
  (is_finite (rdF signal k) = true -> rdF (std_of out) i = S754_zero false).
Proof.
  intros Hs Hk Hsk Hi Hseg Hv out.
  destruct (statisticDetection_rd signal size fs valleys (Arr.len valleys)
              stds kurtosiss skews (len_nonneg valleys) Hs Hk Hsk) as [_ Hrd].
  destruct (Hrd i Hi) as (Es & Ek & Esk).
  unfold out. rewrite Es, Ek, Esk, Hseg. unfold stats_of. simpl fst. simpl snd.
  pose proof (segment_statistics_single signal k Hv) as H.
  destruct (segment_statistics signal k k) as [[a b] c].
  unfold std_of, kurt_of, skew_of. simpl. exact H.
Qed.

Lemma statisticDetection_single_sample_witness :
  let out :=
    statisticDetection (map F32.of_int [1; 2; 3; 4]) 4 25 [(2, 2)]
      (Arr.len [(2, 2)]) [F32.zero] [F32.zero] [F32.zero] in
  rdF (kurt_of out) 0 = S754_nan /\
  rdF (skew_of out) 0 = S754_nan /\
  rdF (std_of out) 0 = S754_zero false.
Proof.
  intros out.
  assert (H : Arr.len [(2, 2)] <= Arr.len [F32.zero]) by len_lia.
  destruct (statisticDetection_single_sample (map F32.of_int [1; 2; 3; 4]) 4 25
              [(2, 2)] [F32.zero] [F32.zero] [F32.zero] 0 2 H H H
              ltac:(len_lia) eq_refl eq_refl)
    as (Hk & Hs & Hstd).
  split; [exact Hk|]. split; [exact Hs|]. exact (Hstd eq_refl).
Defined.

(** The claim as the documentation states it fails: on the one-sample
    segment [[2, 2]] of the signal 1, 2, 3, 4 the stored kurtosis and
    skewness are NaN. *)
Lemma statisticDetection_single_sample_nan :
  statisticDetection (map F32.of_int [1; 2; 3; 4]) 4 25 [(2, 2)] 1
    [F32.zero] [F32.zero] [F32.zero]
  = ([S754_zero false], [S754_nan], [S754_nan]).
Proof. vm_compute. reflexivity. Qed.

(** ** calculateHRVMetrics (C1) *)

(** Every interval of the physiological range converts to [float]
    exactly. *)
Lemma physiological_rr_finite (r : Z) :
  300 <= r <= 1500 -> finite_float (F32.of_int r) = true.
Proof.
  intros Hr.
  assert (H : forallb (fun r => finite_float (F32.of_int r)) (Arr.range 300 1501) = true)
    by (vm_compute; reflexivity).
  rewrite forallb_forall in H. apply H. apply range_In. lia.
Qed.

Lemma single_interval_metrics (r : Z) :
  finite_float (F32.of_int r) = true ->
  calculateHRVMetrics [r] 1 =
  (Some [heart_rate_of r; S754_zero false; S754_nan], 3).
Proof.
  intros Hf. unfold calculateHRVMetrics, heart_rate_of.
  change (1 =? 0) with false. cbv iota zeta.
  rewrite (for_range_empty 1 1) by lia.
  change (F32.sqrt (F32.div F32.zero (F32.of_int (1 - 1)))) with S754_nan.
  rewrite !(for_range_single 0).
  change (rdZ [r] 0) with r.
  destruct (F32.of_int r) as [| | |s m e] eqn:E; try discriminate.
  change (F32.add F32.zero (S754_finite s m e)) with (S754_finite s m e).
  rewrite F32_div_one by exact Hf.
  rewrite F32_sub_self. reflexivity.
Qed.

(** C1, with the case the code misses.  With no interval
    [calculateHRVMetrics] returns the NULL array and a metrics count of 0.
    With exactly one interval, whatever its value, it reports three
    metrics and the third, RMSSD, is the NaN of [sqrt(0 / 0)], not a marker
    of unavailability: the guard at the head of the function covers
    [rrCount == 0] only.  For an interval [r] of the physiological range
    the other two are as claimed: heart rate [60000 / r] and SDNN 0. *)
Theorem calculateHRVMetrics_single_interval (r : Z) :
  calculateHRVMetrics [] 0 = (None, 0) /\
  (exists heartRate sdnn,
     calculateHRVMetrics [r] 1 = (Some [heartRate; sdnn; S754_nan], 3)) /\
  (300 <= r <= 1500 ->
   calculateHRVMetrics [r] 1 = (Some [heart_rate_of r; S754_zero false; S754_nan], 3)).
Proof.
  split; [reflexivity|]. split.
  - unfold calculateHRVMetrics. change (1 =? 0) with false. cbv iota zeta.
    rewrite (for_range_empty 1 1) by lia.
    change (F32.sqrt (F32.div F32.zero (F32.of_int (1 - 1)))) with S754_nan.
    eauto.
  - intros Hr. apply single_interval_metrics, physiological_rr_finite, Hr.
Qed.

Lemma calculateHRVMetrics_single_interval_witness :
  calculateHRVMetrics [800] 1 =
  (Some [heart_rate_of 800; S754_zero false; S754_nan], 3).
Proof.
  apply (proj2 (proj2 (calculateHRVMetrics_single_interval 800))). lia.
Defined.

(** The sibling function does guard the same case: with fewer than two
    intervals it returns the sentinel -1. *)
Lemma estimateRRIntervalConsistency_single_interval (r : Z) :
  estimateRRIntervalConsistency [r] 1 = F32.of_int (-1).
Proof. reflexivity. Qed.

(** ** The peak buffer of thresholdPeakDetection (C8) *)

(** C8 fails on the code.  On the three samples 0, 1, 0 with the caller's
    usual parameters one peak is accepted while the buffer has room for
    [3 / 10 = 0]; on ten samples with four local maxima and a minimum
    distance of 0 four peaks are accepted while the buffer has room for
    one. *)
Theorem thresholdPeakDetection_exceeds_buffer :
  thresholdPeakDetection (map F32.of_int [0; 1; 0]) 3 25 f_0_9 f_0_4 = ([1], 1) /\
  max_peaks 3 = 0 /\
  thresholdPeakDetection (map F32.of_int [0; 1; 0; 1; 0; 1; 0; 1; 0; 0]) 10 25
    f_0_9 F32.zero = ([1; 3; 5; 7], 4) /\
  max_peaks 10 = 1.
Proof. repeat split; vm_compute; reflexivity. Qed.

(** ** movingAverageFilter (C6) *)

Lemma zseq_app (lo : Z) (n k : nat) :
  Arr.zseq lo (n + k) = Arr.zseq lo n ++ Arr.zseq (lo + Z.of_nat n) k.
Proof.
  revert lo. induction n as [|n IH]; intros lo.
  - simpl. rewrite Z.add_0_r. reflexivity.
  - cbn [Nat.add Arr.zseq app]. rewrite IH. do 3 f_equal. lia.
Qed.

Lemma range_app (lo mid hi : Z) :
  lo <= mid <= hi -> Arr.range lo hi = Arr.range lo mid ++ Arr.range mid hi.
Proof.
  intros H. unfold Arr.range.
  replace (Z.to_nat (hi - lo)) with (Z.to_nat (mid - lo) + Z.to_nat (hi - mid))%nat by lia.
  rewrite zseq_app. do 2 f_equal. lia.
Qed.

Lemma for_range_split {S} (lo mid hi : Z) (body : Z -> S -> S) (s : S) :
  lo <= mid <= hi ->
  for_range lo hi body s = for_range mid hi body (for_range lo mid body s).
Proof.
  intros H. rewrite !for_range_fold, (range_app lo mid hi) by exact H.
  apply fold_left_app.
Qed.

Lemma window_sum_prefix (input : list spec_float) (i : Z) (n : nat) :
  Z.of_nat n <= i + 1 ->
  window_sum input i (Z.of_nat n) =
  (fold_left F32.add
     (rev (Arr.slice F32.zero input (i - Z.of_nat n + 1) (i + 1))) F32.zero,
   Z.of_nat n).
Proof.
  unfold window_sum. induction n as [|n IH]; intros Hn.
  - rewrite for_range_empty by lia.
    unfold Arr.slice. rewrite range_empty by lia. reflexivity.
  - replace (Z.of_nat (S n)) with (Z.of_nat n + 1) by lia.
    rewrite for_range_last by lia. rewrite IH by lia.
    destruct (Z.geb_spec (i - Z.of_nat n) 0) as [_|Hneg]; [|lia].
    f_equal.
    unfold Arr.slice.
    rewrite (range_cons (i - (Z.of_nat n + 1) + 1) (i + 1)) by lia.
    cbn [map rev]. rewrite fold_left_app. cbn [fold_left].
    replace (i - (Z.of_nat n + 1) + 1 + 1) with (i - Z.of_nat n + 1) by lia.
    replace (i - (Z.of_nat n + 1) + 1) with (i - Z.of_nat n) by lia.
    reflexivity.
Qed.

Lemma window_sum_spec (input : list spec_float) (i windowSize : Z) :
  0 <= i -> 1 <= windowSize ->
  let lo := Z.max 0 (i - windowSize + 1) in
  window_sum input i windowSize =
  (fold_left F32.add (rev (Arr.slice F32.zero input lo (i + 1))) F32.zero,
   i - lo + 1).
Proof.
  intros Hi Hw lo.
  set (c := Z.min windowSize (i + 1)).
  assert (Hc : lo = i - c + 1) by (unfold lo, c; lia).
  unfold window_sum.
  rewrite (for_range_split 0 c windowSize) by (unfold c; lia).
  fold (window_sum input i c).
  replace c with (Z.of_nat (Z.to_nat c)) at 2 by (unfold c; lia).
  rewrite window_sum_prefix by (unfold c; lia).
  replace (Z.of_nat (Z.to_nat c)) with c by (unfold c; lia).
  rewrite <- Hc. replace (i - lo + 1) with c by lia.
  apply (for_range_preserve (fun st => st = _)); [reflexivity|].
  intros j st Hj ->.
  destruct (Z.geb_spec (i - j) 0) as [Hge|_]; [|reflexivity].
  unfold c in Hj. lia.
Qed.

Lemma window_sum_nonpositive (input : list spec_float) (i windowSize : Z) :
  windowSize <= 0 -> window_sum input i windowSize = (F32.zero, 0).
Proof. intros H. unfold window_sum. apply for_range_empty. lia. Qed.

(** A loop that stores [f i] at index [i] of an array that is long
    enough. *)
Lemma for_range_store {A} (d : A) (f : Z -> A) (n : Z) (a : list A) :
  0 <= n <= Arr.len a ->
  let out := for_range 0 n (fun i out => Arr.upd out i (f i)) a in
  length out = length a /\
  forall k, Arr.rd d out k = if (0 <=? k) && (k <? n) then f k else Arr.rd d a k.
Proof.
  intros Hn out. unfold out.
  apply (for_range_inv
    (fun j out =>
       length out = length a /\
       forall k, Arr.rd d out k = if (0 <=? k) && (k <? j) then f k else Arr.rd d a k)).
  - lia.
  - split; [reflexivity|]. intros k.
    destruct (Z.leb_spec 0 k), (Z.ltb_spec k 0); simpl; try reflexivity; lia.
  - intros j out' Hj [Hlen IH]. split.
    + rewrite upd_length. exact Hlen.
    + intros k. destruct (Z.eq_dec j k) as [Heq|Hne].
      * subst k. rewrite rd_upd_same by len_lia.
        destruct (Z.leb_spec 0 j), (Z.ltb_spec j (j + 1)); simpl; try reflexivity; lia.
      * rewrite rd_upd_other by exact Hne. rewrite IH.
        destruct (Z.leb_spec 0 k), (Z.ltb_spec k j), (Z.ltb_spec k (j + 1));
          simpl; try reflexivity; lia.
Qed.

(** C6, as the code has it.  [movingAverageFilter] rejects no window
    size: for every [windowSize] it writes the first [size] cells of the
    output array and nothing else.  For [windowSize <= 0] every cell
    written is the NaN of the division 0/0 by the zero count.  For
    [windowSize >= 1] the cell at [i] is the mean of
    [input[max(0, i-windowSize+1) .. i]], the window being clipped at the
    left edge. *)
Theorem movingAverageFilter_spec (input output : list spec_float)
    (size windowSize : Z) :
  0 <= size <= Arr.len output ->
  let out := movingAverageFilter input output size windowSize in
  length out = length output /\
  (forall i, size <= i -> rdF out i = rdF output i) /\
  (windowSize <= 0 -> forall i, 0 <= i < size -> rdF out i = S754_nan) /\
  (1 <= windowSize -> forall i, 0 <= i < size ->
     rdF out i = window_mean input (Z.max 0 (i - windowSize + 1)) i).
Proof.
  intros Hsize out.
  assert (E : out =
              for_range 0 size
                (fun i out => Arr.upd out i
                   (F32.div (fst (window_sum input i windowSize))
                            (F32.of_int (snd (window_sum input i windowSize))))) output).
  { unfold out, movingAverageFilter. apply for_range_ext.
    intros i s _. destruct (window_sum input i windowSize) as [sum count].
    reflexivity. }
  clearbody out. subst out.
  destruct (for_range_store F32.zero
              (fun i => F32.div (fst (window_sum input i windowSize))
                                (F32.of_int (snd (window_sum input i windowSize))))
              size output Hsize) as [Hlen Hrd].
  split; [exact Hlen|]. unfold rdF. repeat split.
  - intros i Hi. rewrite Hrd.
    destruct (Z.leb_spec 0 i), (Z.ltb_spec i size); simpl; try reflexivity; lia.
  - intros Hw i Hi. rewrite Hrd.
    destruct (Z.leb_spec 0 i), (Z.ltb_spec i size); simpl; try lia.
    rewrite window_sum_nonpositive by exact Hw. reflexivity.
  - intros Hw i Hi. rewrite Hrd.
    destruct (Z.leb_spec 0 i), (Z.ltb_spec i size); simpl; try lia.
    rewrite window_sum_spec by lia. reflexivity.
Qed.

Lemma movingAverageFilter_spec_witness :
  let input := map F32.of_int [1; 2; 3; 4] in
  let output := map F32.of_int [0; 0; 0; 0] in
  rdF (movingAverageFilter input output 4 2) 3 = window_mean input 2 3 /\
  rdF (movingAverageFilter input output 4 0) 1 = S754_nan.
Proof.
  intros input output. split.
  - apply (proj2 (proj2 (proj2 (movingAverageFilter_spec input output 4 2
                                  ltac:(len_lia))))); lia.
  - apply (proj1 (proj2 (proj2 (movingAverageFilter_spec input output 4 0
                                  ltac:(len_lia))))); lia.
Defined.

(** The claim as the documentation states it fails: with a window size of
    0 nothing is rejected, and the output is produced by dividing by the
    zero count. *)
Lemma movingAverageFilter_zero_window_nan :
  movingAverageFilter (map F32.of_int [1; 2; 3; 4]) (map F32.of_int [0; 0; 0; 0]) 4 0
  = [S754_nan; S754_nan; S754_nan; S754_nan] /\
  F32.div F32.zero (F32.of_int 0) = S754_nan.
Proof. split; vm_compute; reflexivity. Qed.

(** ** eliminateNoiseInTime, the version on segments (C5) *)

Lemma malloc_len {A} (d : A) (n : Z) : 0 <= n -> Arr.len (malloc d n) = n.
Proof. intros H. unfold Arr.len, malloc. rewrite repeat_length. lia. Qed.

(** An array whose cell [i] holds [f valleys[i]] for every [i] is the
    image of [valleys]. *)
Lemma array_is_map {A B} (da : A) (db : B) (f : A -> B) (a : list A) (b : list B) :
  length b = length a ->
  (forall i, 0 <= i < Arr.len a -> Arr.rd db b i = f (Arr.rd da a i)) ->
  b = map f a.
Proof.
  intros Hlen Hrd.
  transitivity (Arr.slice db b 0 (Arr.len b)); [symmetry; apply slice_all|].
  transitivity (map f (Arr.slice da a 0 (Arr.len a))); [|rewrite slice_all; reflexivity].
  unfold Arr.slice. rewrite map_map.
  replace (Arr.len b) with (Arr.len a) by (unfold Arr.len; lia).
  apply map_ext_in. intros i Hi. apply range_In in Hi. apply Hrd. exact Hi.
Qed.

(** On freshly allocated arrays [statisticDetection] returns the
    statistics of the segments, in order. *)
Lemma statisticDetection_malloc (signal : list spec_float) (size fs : Z)
    (valleys : list (Z * Z)) :
  let n := Arr.len valleys in
  let stats := map (stats_of signal) valleys in
  statisticDetection signal size fs valleys n
    (malloc F32.zero n) (malloc F32.zero n) (malloc F32.zero n)
  = (map std_of stats, map kurt_of stats, map skew_of stats).
Proof.
  intros n stats.
  pose proof (len_nonneg valleys) as Hn. fold n in Hn.
  pose proof (malloc_len F32.zero n Hn) as Hm.
  destruct (statisticDetection_rd signal size fs valleys n
              (malloc F32.zero n) (malloc F32.zero n) (malloc F32.zero n))
    as [(Ls & Lk & Lsk) Hrd]; try lia.
  destruct (statisticDetection _ _ _ _ _ _ _ _) as [[s k] sk].
  unfold std_of, kurt_of, skew_of in Ls, Lk, Lsk, Hrd. cbn [fst snd] in Ls, Lk, Lsk, Hrd.
  assert (Hlen : length (malloc F32.zero n) = length valleys).
  { unfold Arr.len in Hm. unfold n, Arr.len in *. lia. }
  unfold stats. rewrite !map_map.
  f_equal; [f_equal|].
  - apply (array_is_map (0, 0) F32.zero); [congruence|].
    intros i Hi. apply Hrd. exact Hi.
  - apply (array_is_map (0, 0) F32.zero); [congruence|].
    intros i Hi. apply Hrd. exact Hi.
  - apply (array_is_map (0, 0) F32.zero); [congruence|].
    intros i Hi. apply Hrd. exact Hi.
Qed.

Lemma rd_map {A B} (da : A) (db : B) (f : A -> B) (a : list A) (i : Z) :
  0 <= i < Arr.len a -> Arr.rd db (map f a) i = f (Arr.rd da a i).
Proof.
  unfold Arr.len. intros Hi. rewrite !rd_nth by lia.
  rewrite nth_indep with (d' := f da) by (rewrite length_map; lia).
  apply map_nth.
Qed.

Lemma sum_fold (f : Z -> Z) (l : list Z) (acc : Z) :
  fold_left (fun final_size x => final_size + f x) l acc = acc + zsum (map f l).
Proof.
  revert acc. induction l as [|x l IH]; intros acc; simpl; [lia|].
  rewrite IH. lia.
Qed.

Lemma copy_range (data : list spec_float) (lo hi : Z) (buf : list spec_float) (idx : Z) :
  for_range lo hi
    (fun j (st : list spec_float * Z) =>
       let '(filtered_data, idx) := st in (filtered_data ++ [rdF data j], idx + 1))
    (buf, idx)
  = (buf ++ Arr.slice F32.zero data lo hi, idx + Arr.len (Arr.slice F32.zero data lo hi)).
Proof.
  rewrite (for_range_append (fun j => [rdF data j])).
  - unfold Arr.slice. rewrite flat_map_concat_map.
    replace (concat (map (fun j => [rdF data j]) (Arr.range lo hi)))
      with (map (Arr.rd F32.zero data) (Arr.range lo hi)); [reflexivity|].
    generalize (Arr.range lo hi). intros l.
    induction l as [|x l IH]; simpl; [reflexivity | rewrite IH; reflexivity].
  - intros i b k _. reflexivity.
Qed.

Lemma copy_segments (data : list spec_float) (valleys : list (Z * Z))
    (l : list Z) (buf : list spec_float) (idx : Z) :
  fold_left
    (fun st x =>
       for_range (fst (rdP valleys x)) (snd (rdP valleys x) + 1)
         (fun j (st : list spec_float * Z) =>
            let '(filtered_data, idx) := st in (filtered_data ++ [rdF data j], idx + 1))
         st) l (buf, idx)
  = (buf ++ flat_map (segment_samples data) (map (rdP valleys) l),
     idx + Arr.len (flat_map (segment_samples data) (map (rdP valleys) l))).
Proof.
  revert buf idx. induction l as [|x l IH]; intros buf idx; simpl.
  - rewrite app_nil_r. unfold Arr.len. simpl. f_equal. lia.
  - rewrite copy_range, IH. fold (segment_samples data (rdP valleys x)).
    rewrite <- app_assoc, len_app. f_equal. lia.
Qed.

(** The indices kept by step 3 select the retained segments. *)
Lemma valid_indices_select (p : Z * Z -> bool) (valleys : list (Z * Z)) :
  map (rdP valleys)
    (flat_map (fun i => if p (rdP valleys i) then [i] else [])
       (Arr.range 0 (Arr.len valleys)))
  = filter p valleys.
Proof.
  transitivity (filter p (Arr.slice (0, 0) valleys 0 (Arr.len valleys)));
    [|rewrite slice_all; reflexivity].
  unfold Arr.slice.
  generalize (Arr.range 0 (Arr.len valleys)). intros l.
  induction l as [|i l IH]; simpl; [reflexivity|].
  fold (rdP valleys i).
  destruct (p (rdP valleys i)); simpl; rewrite IH; reflexivity.
Qed.

Lemma len_flat_map_samples (data : list spec_float) (l : list (Z * Z)) :
  Forall (fun seg => fst seg <= snd seg + 1) l ->
  Arr.len (flat_map (segment_samples data) l) = zsum (map segment_length l).
Proof.
  induction 1 as [|seg l Hseg _ IH]; [reflexivity|].
  simpl. rewrite len_app, IH. f_equal.
  unfold segment_samples, Arr.slice, Arr.len, segment_length.
  rewrite length_map, range_length. lia.
Qed.

(** C5.  [eliminateNoiseInTime] on segments keeps a segment exactly when
    its standard deviation is below the std threshold, its kurtosis below
    the kurtosis threshold and its skewness strictly between the two skew
    thresholds (all comparisons strict); it returns the samples
    [data[start..end]] of the kept segments, concatenated in the order of
    the segments, and as new size the sum of their lengths.  When no
    segment is kept the result is the empty array with size 0. *)
Theorem eliminateNoiseInTime_spec (data : list spec_float) (size fs : Z)
    (ths : list spec_float) (cycle : Z) (valleys : list (Z * Z)) :
  let t := segment_thresholds data valleys ths in
  let kept := filter (retained t data) valleys in
  let out := eliminateNoiseInTime data size fs ths cycle valleys (Arr.len valleys) in
  (forall seg, In seg kept <->
     In seg valleys /\
     F32.lt (std_of (stats_of data seg)) (std_ths t) = true /\
     F32.lt (kurt_of (stats_of data seg)) (kurt_ths t) = true /\
     F32.lt (skews_ths0 t) (skew_of (stats_of data seg)) = true /\
     F32.lt (skew_of (stats_of data seg)) (skews_ths1 t) = true) /\
  fst out = flat_map (segment_samples data) kept /\
  snd out = zsum (map segment_length kept) /\
  (Forall (fun seg => fst seg <= snd seg + 1) valleys -> snd out = Arr.len (fst out)) /\
  (kept = [] -> out = ([], 0)).
Proof.
  intros t kept out.
  assert (E : out = (flat_map (segment_samples data) kept, zsum (map segment_length kept))).
  { unfold out, eliminateNoiseInTime.
    rewrite statisticDetection_malloc. fold (segment_thresholds data valleys ths). fold t.
    rewrite (for_range_append
               (fun i => if retained t data (rdP valleys i) then [i] else [])).
    - set (valid_indices := flat_map _ (Arr.range 0 (Arr.len valleys))).
      rewrite app_nil_l, Z.add_0_l.
      rewrite (for_range_array 0
                 (fun x final_size =>
                    final_size + (snd (rdP valleys x) - fst (rdP valleys x) + 1))).
      rewrite (for_range_array 0
                 (fun x st =>
                    for_range (fst (rdP valleys x)) (snd (rdP valleys x) + 1)
                      (fun j (st : list spec_float * Z) =>
                         let '(filtered_data, idx) := st in
                         (filtered_data ++ [rdF data j], idx + 1)) st)).
      rewrite copy_segments.
      rewrite (sum_fold (fun x => snd (rdP valleys x) - fst (rdP valleys x) + 1)).
      assert (Hsel : map (rdP valleys) valid_indices = kept).
      { apply (valid_indices_select (retained t data)). }
      rewrite Hsel, app_nil_l, Z.add_0_l. f_equal.
      rewrite <- Hsel, map_map. reflexivity.
    - intros i b k Hi. unfold retained, rdF.
      rewrite !(rd_map (F32.zero, F32.zero, F32.zero) F32.zero)
        by (unfold Arr.len in *; rewrite length_map; exact Hi).
      rewrite !(rd_map (0, 0) (F32.zero, F32.zero, F32.zero)) by exact Hi.
      fold (rdP valleys i).
      destruct (within_thresholds _ _ _ _).
      + reflexivity.
      + rewrite app_nil_r. f_equal. unfold Arr.len. simpl. lia. }
  rewrite E. cbn [fst snd]. repeat split.
  - apply filter_In in H. tauto.
  - apply filter_In in H. destruct H as [_ H].
    unfold retained, within_thresholds in H.
    apply andb_prop in H. destruct H as [H _].
    apply andb_prop in H. destruct H as [H _].
    apply andb_prop in H. tauto.
  - apply filter_In in H. destruct H as [_ H].
    unfold retained, within_thresholds in H.
    apply andb_prop in H. destruct H as [H _].
    apply andb_prop in H. destruct H as [H _].
    apply andb_prop in H. tauto.
  - apply filter_In in H. destruct H as [_ H].
    unfold retained, within_thresholds in H.
    apply andb_prop in H. destruct H as [H _].
    apply andb_prop in H. tauto.
  - apply filter_In in H. destruct H as [_ H].
    unfold retained, within_thresholds in H.
    apply andb_prop in H. tauto.
  - intros (Hin & H1 & H2 & H3 & H4). apply filter_In. split; [exact Hin|].
    unfold retained, within_thresholds, F32.gt, F32.lt in *.
    rewrite H1, H2, H3, H4. reflexivity.
  - intros Hwf. symmetry. apply len_flat_map_samples.
    apply Forall_forall. intros seg Hseg. unfold kept in Hseg.
    apply filter_In in Hseg.
    rewrite Forall_forall in Hwf. apply Hwf. tauto.
  - intros ->. reflexivity.
Qed.

Lemma eliminateNoiseInTime_spec_witness :
  let data := map F32.of_int [1; 2; 3; 4; 9; 1; 7; 3] in
  let ones := map F32.of_int [1; 1; 1; 1] in
  let zeros := map F32.of_int [0; 0; 0; 0] in
  let valleys := [(0, 3); (3, 6)] in
  let out := eliminateNoiseInTime data 8 25 ones 0 valleys (Arr.len valleys) in
  snd out = Arr.len (fst out) /\
  In (0, 3) (filter (retained (segment_thresholds data valleys ones) data) valleys) /\
  eliminateNoiseInTime data 8 25 zeros 0 [(0, 3)] (Arr.len [(0, 3)]) = ([], 0).
Proof.
  intros data ones zeros valleys out. split; [|split].
  - apply (proj1 (proj2 (proj2 (proj2
             (eliminateNoiseInTime_spec data 8 25 ones 0 valleys))))).
    unfold valleys.
    repeat (apply Forall_cons; [cbn [fst snd]; lia|]). apply Forall_nil.
  - refine (proj2 (proj1 (eliminateNoiseInTime_spec data 8 25 ones 0 valleys) (0, 3)) _).
    split; [left; reflexivity|].
    repeat split; vm_compute; reflexivity.
  - apply (proj2 (proj2 (proj2 (proj2
             (eliminateNoiseInTime_spec data 8 25 zeros 0 [(0, 3)]))))).
    vm_compute. reflexivity.
Defined.

(** * Further properties of the code *)

(** ** Peaks, valleys and segments *)

Lemma StronglySorted_snoc (l : list Z) (c : Z) :
  StronglySorted Z.lt l -> Forall (fun a => a < c) l -> StronglySorted Z.lt (l ++ [c]).
Proof.
  induction l as [|a t IH]; intros Hs Hall; simpl.
  - constructor; constructor.
  - inversion Hs as [|? ? Ht Ha]; subst. inversion Hall as [|? ? Hac Htc]; subst.
    constructor; [apply IH; assumption|].
    apply Forall_app. split; [exact Ha | constructor; [exact Hac | constructor]].
Qed.

Lemma accept_if_far_cases (th c : Z) (l : list Z) (n : Z) :
  accept_if_far th c (l, n) = (l, n) \/ accept_if_far th c (l, n) = (l ++ [c], n + 1).
Proof.
  unfold accept_if_far. destruct (_ || _); auto.
Qed.

Lemma accepted_sorted_weaken (P : Z -> Prop) (b b' : Z) (st : list Z * Z) :
  b <= b' -> accepted_sorted P b st -> accepted_sorted P b' st.
Proof.
  intros Hb (Hn & Hall & Hs). repeat split; auto.
  eapply Forall_impl; [|exact Hall]. simpl. intros p [Hp Hlt]. split; [exact Hp | lia].
Qed.

Lemma accept_if_far_sorted (P : Z -> Prop) (th c : Z) (st : list Z * Z) :
  P c -> accepted_sorted P c st -> accepted_sorted P (c + 1) (accept_if_far th c st).
Proof.
  intros Hc Hst. destruct st as [l n].
  destruct (accept_if_far_cases th c l n) as [E|E]; rewrite E.
  - apply (accepted_sorted_weaken P c); [lia | exact Hst].
  - destruct Hst as (Hn & Hall & Hs). unfold accepted_sorted. cbn [fst snd] in *. repeat split.
    + rewrite len_app. subst n. reflexivity.
    + apply Forall_app. split.
      * eapply Forall_impl; [|exact Hall]. simpl. intros p [Hp Hlt]. split; [exact Hp | lia].
      * constructor; [split; [exact Hc | lia] | constructor].
    + apply StronglySorted_snoc; [exact Hs|].
      eapply Forall_impl; [|exact Hall]. simpl. intros p [_ Hlt]. exact Hlt.
Qed.

Lemma thresholdPeakDetection_scan (dataset : list spec_float) (size fs : Z)
    (threshold_factor min_distance : spec_float) :
  3 <= size ->
  accepted_sorted
    (fun p => 1 <= p /\ peak_candidate dataset (peak_threshold dataset size threshold_factor) p = true)
    (size - 1)
    (thresholdPeakDetection dataset size fs threshold_factor min_distance).
Proof.
  intros Hsize. unfold thresholdPeakDetection.
  fold (peak_threshold dataset size threshold_factor).
  apply (for_range_inv
           (fun i st => accepted_sorted
              (fun p => 1 <= p /\
                 peak_candidate dataset (peak_threshold dataset size threshold_factor) p = true)
              i st)).
  - lia.
  - repeat split; constructor.
  - intros i st Hi Hst.
    fold (peak_candidate dataset (peak_threshold dataset size threshold_factor) i).
    destruct (peak_candidate _ _ i) eqn:E.
    + apply accept_if_far_sorted; [split; [lia | exact E] | exact Hst].
    + apply (accepted_sorted_weaken _ i); [lia | exact Hst].
Qed.

(** X8. The peaks [thresholdPeakDetection] returns on a run that stays
    inside its peak buffer: the count is the length of the list; every peak
    is an interior index [1 .. size-2] whose sample is at or above the
    threshold (mean times factor) and strictly above both neighbours; the
    indices are strictly increasing.  A signal of fewer than three samples
    is not scanned and has no peak. *)
Theorem thresholdPeakDetection_peaks (dataset : list spec_float) (size fs : Z)
    (threshold_factor min_distance : spec_float) :
  let thr := peak_threshold dataset size threshold_factor in
  let out := thresholdPeakDetection dataset size fs threshold_factor min_distance in
  (within_capacity dataset size fs threshold_factor min_distance ->
   snd out = Arr.len (fst out) /\
   Forall (fun p => 1 <= p <= size - 2 /\ peak_candidate dataset thr p = true) (fst out) /\
   StronglySorted Z.lt (fst out)) /\
  (size < 3 -> out = ([], 0)).
Proof.
  intros thr out.
  destruct (Z.lt_ge_cases size 3) as [Hlt|Hge].
  - assert (E : out = ([], 0)).
    { unfold out, thresholdPeakDetection. apply for_range_empty. lia. }
    rewrite E. split; [intros _|intros _; reflexivity].
    repeat split; constructor.
  - destruct (thresholdPeakDetection_scan dataset size fs threshold_factor min_distance)
      as (Hn & Hall & Hs); [lia|].
    fold out in Hn, Hall, Hs. split; [intros _|lia].
    repeat split; try assumption.
    eapply Forall_impl; [|exact Hall]. simpl. fold thr. intros p [[H1 H2] H3].
    split; [lia | exact H2].
Qed.

Lemma thresholdPeakDetection_peaks_witness :
  within_capacity
    (map F32.of_int [0; 0; 0; 5; 0; 0; 0; 0; 0; 0; 0; 0; 0; 0; 0; 5; 0; 0; 0; 0])
    20 25 f_0_9 f_0_4 /\
  StronglySorted Z.lt
    (fst (thresholdPeakDetection
            (map F32.of_int [0; 0; 0; 5; 0; 0; 0; 0; 0; 0; 0; 0; 0; 0; 0; 5; 0; 0; 0; 0])
            20 25 f_0_9 f_0_4)) /\
  thresholdPeakDetection (map F32.of_int [0; 1]) 2 25 f_0_9 f_0_4 = ([], 0).
Proof.
  assert (H : within_capacity
                (map F32.of_int [0; 0; 0; 5; 0; 0; 0; 0; 0; 0; 0; 0; 0; 0; 0; 5; 0; 0; 0; 0])
                20 25 f_0_9 f_0_4).
  { unfold within_capacity. vm_compute. discriminate. }
  split; [exact H|]. split.
  - exact (proj2 (proj2 (proj1
      (thresholdPeakDetection_peaks
         (map F32.of_int [0; 0; 0; 5; 0; 0; 0; 0; 0; 0; 0; 0; 0; 0; 0; 5; 0; 0; 0; 0])
         20 25 f_0_9 f_0_4) H))).
  - apply (proj2 (thresholdPeakDetection_peaks (map F32.of_int [0; 1]) 2 25 f_0_9 f_0_4)).
    lia.
Defined.

Lemma window_min_range (dataset : list spec_float) (window : list Z) (window_size : Z) :
  0 < window_size -> 0 <= window_min dataset window window_size < window_size.
Proof.
  intros Hws. unfold window_min.
  apply (for_range_preserve (fun m => 0 <= m < window_size)); [lia|].
  intros j m Hj Hm. destruct (F32.lt _ _); lia.
Qed.

Lemma valley_scan_step (dataset : list spec_float) (size : Z) (avg : spec_float)
    (i : Z) (st : list Z * Z * list Z * Z) :
  0 <= i < size ->
  valley_scan_ok dataset size avg i st ->
  valley_scan_ok dataset size avg (i + 1)
    (let '(valleyList, nvalleys, window, window_size) := st in
     if F32.gt (rdF dataset i) avg && (window_size <? 1) then st
     else if F32.le (rdF dataset i) avg then
       (valleyList, nvalleys, Arr.upd window window_size i, window_size + 1)
     else if window_size >? 0 then
       let min_index := window_min dataset window window_size in
       (valleyList ++ [rdZ window min_index], nvalleys + 1, window, 0)
     else st).
Proof.
  intros Hi. destruct st as [[[vl nv] w] ws].
  intros (Hnv & Hws & Hcnt & Hlen & Hall & Hs & Hwin).
  pose proof (len_nonneg vl) as Hvl.
  assert (Hkeep : valley_scan_ok dataset size avg (i + 1) (vl, nv, w, ws)).
  { repeat split; try assumption; try lia.
    - eapply Forall_impl; [|exact Hall]. simpl. intros v [Hv Hlt]. split; [exact Hv | lia].
    - destruct (Hwin k H) as [Hk _]. lia.
    - destruct (Hwin k H) as [Hk _]. lia.
    - destruct (Hwin k H) as (_ & Hk & _). exact Hk.
    - destruct (Hwin k H) as (_ & _ & Hk). exact Hk. }
  destruct (F32.gt (rdF dataset i) avg && (ws <? 1)); [exact Hkeep|].
  destruct (F32.le (rdF dataset i) avg) eqn:Hle.
  - repeat split; try assumption; try lia.
    + unfold Arr.len in *. rewrite upd_length. exact Hlen.
    + eapply Forall_impl; [|exact Hall]. simpl. intros v [Hv Hlt]. split; [exact Hv | lia].
    + destruct (Z.eq_dec k ws) as [->|Hne].
      * unfold rdZ. rewrite rd_upd_same by lia. lia.
      * unfold rdZ. rewrite rd_upd_other by lia.
        destruct (Hwin k ltac:(lia)) as [Hk _]. unfold rdZ in Hk. lia.
    + destruct (Z.eq_dec k ws) as [->|Hne].
      * unfold rdZ. rewrite rd_upd_same by lia. lia.
      * unfold rdZ. rewrite rd_upd_other by lia.
        destruct (Hwin k ltac:(lia)) as [Hk _]. unfold rdZ in Hk. lia.
    + destruct (Z.eq_dec k ws) as [->|Hne].
      * unfold rdZ. rewrite rd_upd_same by lia. exact Hle.
      * unfold rdZ. rewrite rd_upd_other by lia.
        destruct (Hwin k ltac:(lia)) as (_ & Hk & _). exact Hk.
    + destruct (Z.eq_dec k ws) as [->|Hne].
      * unfold rdZ. rewrite rd_upd_same by lia.
        eapply Forall_impl; [|exact Hall]. simpl. intros v [_ Hlt]. exact Hlt.
      * unfold rdZ. rewrite rd_upd_other by lia.
        destruct (Hwin k ltac:(lia)) as (_ & _ & Hk). exact Hk.
  - destruct (Z.gtb_spec ws 0) as [Hpos|Hnpos]; [|exact Hkeep].
    pose proof (window_min_range dataset w ws Hpos) as Hm.
    destruct (Hwin _ Hm) as (Hr & Hb & Hlt).
    cbv zeta.
    split; [rewrite len_app; subst nv; reflexivity|].
    split; [lia|]. split; [lia|]. split; [exact Hlen|].
    split; [|split].
    + apply Forall_app. split.
      * eapply Forall_impl; [|exact Hall]. simpl. intros v [Hv Hl]. split; [exact Hv | lia].
      * constructor; [|constructor]. repeat split; try lia. exact Hb.
    + apply StronglySorted_snoc; assumption.
    + intros k Hk. lia.
Qed.

Lemma valley_candidates_ok (dataset : list spec_float) (size : Z) (avg : spec_float) :
  let out := valley_candidates dataset size avg in
  snd out = Arr.len (fst out) /\
  snd out <= Z.max 0 size /\
  Forall (fun v => 0 <= v < size /\ at_or_below dataset avg v) (fst out) /\
  StronglySorted Z.lt (fst out).
Proof.
  intros out. unfold out, valley_candidates.
  destruct (Z.le_gt_cases 0 size) as [Hsize|Hneg].
  - pose proof (for_range_inv (valley_scan_ok dataset size avg) 0 size
                  (fun i st =>
                     let '(valleyList, nvalleys, window, window_size) := st in
                     if F32.gt (rdF dataset i) avg && (window_size <? 1) then st
                     else if F32.le (rdF dataset i) avg then
                       (valleyList, nvalleys, Arr.upd window window_size i, window_size + 1)
                     else if window_size >? 0 then
                       let min_index := window_min dataset window window_size in
                       (valleyList ++ [rdZ window min_index], nvalleys + 1, window, 0)
                     else st)
                  ([], 0, malloc 0 size, 0) Hsize) as H.
    assert (H0 : valley_scan_ok dataset size avg 0 ([], 0, malloc 0 size, 0)).
    { split; [reflexivity|]. split; [lia|]. split; [lia|].
      split; [apply malloc_len; exact Hsize|].
      split; [constructor|]. split; [constructor|]. intros k Hk. lia. }
    specialize (H H0 (fun i st Hi Hst => valley_scan_step dataset size avg i st Hi Hst)).
    destruct (for_range 0 size _ _) as [[[vl nv] w] ws].
    destruct H as (Hnv & Hws & Hcnt & _ & Hall & Hs & _).
    cbn [fst snd]. pose proof (len_nonneg vl).
    repeat split; try assumption; try lia.
    eapply Forall_impl; [|exact Hall]. simpl. intros v [[Hv Hb] Hlt]. auto.
  - rewrite for_range_empty by lia. cbn [fst snd].
    repeat split; try constructor. lia.
Qed.

Lemma sorted_rd_lt (l : list Z) (k i : Z) :
  StronglySorted Z.lt l -> 0 <= k < i -> i < Arr.len l -> rdZ l k < rdZ l i.
Proof.
  intros Hs. revert k i. induction Hs as [|a t Ht IH Ha]; intros k i Hk Hi.
  - unfold Arr.len in Hi. simpl in Hi. lia.
  - assert (Hlen : Arr.len (a :: t) = Arr.len t + 1) by (unfold Arr.len; simpl length; lia).
    unfold rdZ in *.
    replace i with (i - 1 + 1) by lia. rewrite rd_cons by lia.
    destruct (Z.eq_dec k 0) as [->|Hk0].
    + change (Arr.rd 0 (a :: t) 0) with a.
      rewrite Forall_forall in Ha. apply Ha.
      rewrite rd_nth by lia. apply nth_In. unfold Arr.len in *. lia.
    + replace k with (k - 1 + 1) by lia. rewrite rd_cons by lia.
      apply IH; lia.
Qed.

(** The second pass of [valleyDetection] on increasing candidates. *)
Lemma refractory_pass_sorted (P : Z -> Prop) (th : Z) (valleyList : list Z) :
  StronglySorted Z.lt valleyList ->
  Forall P valleyList ->
  let out :=
    for_range 0 (Arr.len valleyList)
      (fun i st => accept_if_far th (rdZ valleyList i) st) ([], 0) in
  snd out = Arr.len (fst out) /\
  snd out <= Arr.len valleyList /\
  Forall P (fst out) /\
  StronglySorted Z.lt (fst out).
Proof.
  intros Hs HP out.
  assert (H : snd out = Arr.len (fst out) /\ snd out <= Arr.len valleyList /\
              Forall (fun p => P p /\ exists k, 0 <= k < Arr.len valleyList /\ p = rdZ valleyList k)
                (fst out) /\
              StronglySorted Z.lt (fst out)).
  { unfold out.
    apply (for_range_inv
      (fun i st =>
         snd st = Arr.len (fst st) /\ snd st <= i /\
         Forall (fun p => P p /\ exists k, 0 <= k < i /\ p = rdZ valleyList k) (fst st) /\
         StronglySorted Z.lt (fst st))).
    - apply len_nonneg.
    - cbn [fst snd]. repeat split; try constructor. lia.
    - intros i [l n] Hi (Hn & Hle & Hall & Hsl). cbn [fst snd] in *.
      destruct (accept_if_far_cases th (rdZ valleyList i) l n) as [E|E]; rewrite E;
        cbn [fst snd].
      + repeat split; try assumption; try lia.
        eapply Forall_impl; [|exact Hall]. simpl.
        intros p (Hp & k & Hk & Hpk). split; [exact Hp|]. exists k. split; [lia | exact Hpk].
      + repeat split; try lia.
        * rewrite len_app. subst n. reflexivity.
        * apply Forall_app. split.
          -- eapply Forall_impl; [|exact Hall]. simpl.
             intros p (Hp & k & Hk & Hpk). split; [exact Hp|]. exists k. split; [lia | exact Hpk].
          -- constructor; [|constructor]. split.
             ++ rewrite Forall_forall in HP. apply HP. unfold rdZ. rewrite rd_nth by lia. apply nth_In. unfold Arr.len in *. lia.
             ++ exists i. split; [lia | reflexivity].
        * apply StronglySorted_snoc; [exact Hsl|].
          eapply Forall_impl; [|exact Hall]. simpl.
          intros p (_ & k & Hk & ->). apply sorted_rd_lt; [exact Hs | lia | lia]. }
  destruct H as (H1 & H2 & H3 & H4). repeat split; try assumption.
  eapply Forall_impl; [|exact H3]. simpl. tauto.
Qed.

(** X3. The valleys [valleyDetection] returns: the count is the
    length of the list and at most [size]; every valley is an index of the
    signal whose sample is at or below the mean of the signal; the indices
    are strictly increasing. *)
Theorem valleyDetection_valleys (dataset : list spec_float) (size fs : Z)
    (min_distance : spec_float) :
  let out := valleyDetection dataset size fs min_distance in
  snd out = Arr.len (fst out) /\
  snd out <= Z.max 0 size /\
  Forall (fun v => 0 <= v < size /\ at_or_below dataset (signal_mean dataset size) v)
    (fst out) /\
  StronglySorted Z.lt (fst out).
Proof.
  intros out. unfold out, valleyDetection. cbv zeta.
  fold (signal_mean dataset size).
  destruct (valley_candidates_ok dataset size (signal_mean dataset size))
    as (Hn & Hle & Hall & Hs).
  destruct (valley_candidates dataset size (signal_mean dataset size)) as [vl nv].
  cbn [fst snd] in *. subst nv.
  destruct (refractory_pass_sorted
              (fun v => 0 <= v < size /\ at_or_below dataset (signal_mean dataset size) v)
              (TH_elapsed min_distance fs) vl Hs Hall) as (H1 & H2 & H3 & H4).
  repeat split; try assumption. lia.
Qed.

Lemma pairValley_consecutive (valleys : list Z) :
  pairValley valleys (Arr.len valleys) = consecutive valleys.
Proof.
  unfold pairValley.
  rewrite (for_range_collect (fun i => (rdZ valleys i, rdZ valleys (i + 1)))).
  rewrite app_nil_l, <- consecutive_range. unfold Arr.range.
  replace (Z.to_nat (Arr.len valleys - 1 - 0)) with (Z.to_nat (Arr.len valleys - 1)) by lia.
  rewrite (map_zseq_shift (fun i => (rdZ valleys (i - 1), rdZ valleys i)) 0).
  apply map_ext. intros i. replace (i + 1 - 1) with i by lia. reflexivity.
Qed.

Lemma consecutive_Forall (P : Z -> Prop) (l : list Z) :
  Forall P l -> Forall (fun p => P (fst p) /\ P (snd p)) (consecutive l).
Proof.
  induction l as [|a t IH]; intros H; [constructor|].
  destruct t as [|b t']; [constructor|].
  change (consecutive (a :: b :: t')) with ((a, b) :: consecutive (b :: t')).
  inversion H as [|? ? Ha Ht]; subst. inversion Ht as [|? ? Hb _]; subst.
  constructor; [split; assumption | apply IH; exact Ht].
Qed.

Lemma consecutive_sorted (l : list Z) :
  StronglySorted Z.lt l -> Forall (fun p => fst p < snd p) (consecutive l).
Proof.
  induction l as [|a t IH]; intros H; [constructor|].
  destruct t as [|b t']; [constructor|].
  change (consecutive (a :: b :: t')) with ((a, b) :: consecutive (b :: t')).
  inversion H as [|? ? Ht Ha]; subst. inversion Ha as [|? ? Hab _]; subst.
  constructor; [exact Hab | apply IH; exact Ht].
Qed.

Lemma valleyDetection_refractory (dataset : list spec_float) (size fs : Z)
    (min_distance : spec_float) :
  accepted_ok (TH_elapsed min_distance fs) (valleyDetection dataset size fs min_distance).
Proof.
  unfold valleyDetection.
  destruct (valley_candidates _ _ _) as [valleyList nvalleys].
  apply (for_range_preserve (accepted_ok (TH_elapsed min_distance fs))).
  - split; [reflexivity | constructor].
  - intros i st _ Hst. apply accept_if_far_ok. exact Hst.
Qed.

Lemma valleyDetection_indices (dataset : list spec_float) (size fs : Z)
    (min_distance : spec_float) :
  let out := valleyDetection dataset size fs min_distance in
  snd out = Arr.len (fst out) /\
  Forall (fun v => 0 <= v < size) (fst out) /\
  StronglySorted Z.lt (fst out).
Proof.
  intros out. unfold out, valleyDetection. cbv zeta.
  fold (signal_mean dataset size).
  destruct (valley_candidates_ok dataset size (signal_mean dataset size))
    as (Hn & _ & Hall & Hs).
  destruct (valley_candidates dataset size (signal_mean dataset size)) as [vl nv].
  cbn [fst snd] in *. subst nv.
  assert (Hall' : Forall (fun v => 0 <= v < size) vl).
  { eapply Forall_impl; [|exact Hall]. simpl. tauto. }
  destruct (refractory_pass_sorted (fun v => 0 <= v < size)
              (TH_elapsed min_distance fs) vl Hs Hall') as (H1 & _ & H3 & H4).
  split; [exact H1 | split; [exact H3 | exact H4]].
Qed.

Lemma detected_segments_in_bounds (dataset : list spec_float) (size fs : Z)
    (min_distance : spec_float) :
  let valleys := valleyDetection dataset size fs min_distance in
  let segments := pairValley (fst valleys) (snd valleys) in
  segments = consecutive (fst valleys) /\
  Forall (fun seg => 0 <= fst seg /\ fst seg < snd seg /\ snd seg < size) segments.
Proof.
  intros valleys segments.
  destruct (valleyDetection_indices dataset size fs min_distance) as (Hn & Hall & Hs).
  fold valleys in Hn, Hall, Hs.
  assert (E : segments = consecutive (fst valleys)).
  { unfold segments. rewrite Hn. apply pairValley_consecutive. }
  split; [exact E|]. rewrite E.
  pose proof (consecutive_Forall _ _ Hall) as H1.
  pose proof (consecutive_sorted _ Hs) as H2.
  rewrite Forall_forall in *. intros seg Hseg.
  specialize (H1 seg Hseg). specialize (H2 seg Hseg).
  simpl in H1. lia.
Qed.

(** X5. The segments [pairValley] builds from the valleys of
    [valleyDetection] are the pairs of consecutive valleys; each lies inside
    the signal, starts before it ends, and is longer than the refractory
    distance [TH_elapsed]. *)
Theorem valley_segments_proper (dataset : list spec_float) (size fs : Z)
    (min_distance : spec_float) :
  let valleys := valleyDetection dataset size fs min_distance in
  let segments := pairValley (fst valleys) (snd valleys) in
  segments = consecutive (fst valleys) /\
  Forall (fun seg => 0 <= fst seg /\ fst seg < snd seg /\ snd seg < size /\
                     snd seg - fst seg > TH_elapsed min_distance fs) segments.
Proof.
  intros valleys segments.
  destruct (detected_segments_in_bounds dataset size fs min_distance) as [E Hb].
  destruct (valleyDetection_refractory dataset size fs min_distance) as [_ Hr].
  fold valleys in E, Hb, Hr. fold segments in E, Hb.
  split; [exact E|]. rewrite E in *.
  unfold refractory in Hr.
  rewrite Forall_forall in *. intros seg Hseg.
  specialize (Hb seg Hseg). specialize (Hr seg Hseg).
  lia.
Qed.

Lemma SFltb_irrefl (x : spec_float) : SFltb x x = false.
Proof.
  unfold SFltb, SFcompare. destruct x as [s|s| |s m e]; try (destruct s); try reflexivity.
  - rewrite Z.compare_refl, Pos.compare_cont_refl. reflexivity.
  - rewrite Z.compare_refl, Pos.compare_cont_refl. reflexivity.
Qed.

(** X10. A constant signal has neither valleys nor peaks:
    [valleyDetection] and [thresholdPeakDetection] both return the empty list
    with count 0, whatever the constant (NaN and infinities included). *)
Theorem constant_signal_no_extrema (dataset : list spec_float) (size fs : Z)
    (threshold_factor min_distance c : spec_float) :
  (forall i, 0 <= i < size -> rdF dataset i = c) ->
  valleyDetection dataset size fs min_distance = ([], 0) /\
  thresholdPeakDetection dataset size fs threshold_factor min_distance = ([], 0).
Proof.
  intros Hc. split.
  - unfold valleyDetection. cbv zeta.
    set (avg := F32.div (signal_sum dataset size) (F32.of_int size)).
    assert (E : valley_candidates dataset size avg = ([], 0)).
    { unfold valley_candidates.
      assert (H : let st := for_range 0 size
                   (fun i st =>
                     let '(valleyList, nvalleys, window, window_size) := st in
                     if F32.gt (rdF dataset i) avg && (window_size <? 1) then st
                     else if F32.le (rdF dataset i) avg then
                       (valleyList, nvalleys, Arr.upd window window_size i, window_size + 1)
                     else if window_size >? 0 then
                       let min_index := window_min dataset window window_size in
                       (valleyList ++ [rdZ window min_index], nvalleys + 1, window, 0)
                     else st)
                   ([], 0, malloc 0 size, 0) in
                 fst (fst st) = ([], 0) /\ (0 < snd st -> F32.le c avg = true)).
      { apply (for_range_preserve
                 (fun st : list Z * Z * list Z * Z =>
                    fst (fst st) = ([], 0) /\ (0 < snd st -> F32.le c avg = true))).
        - split; [reflexivity | cbn; lia].
        - intros i [[[vl nv] w] ws] Hi [Hv Hw]. cbn [fst snd] in *.
          rewrite (Hc i Hi).
          destruct (F32.gt c avg && (ws <? 1)); [split; assumption|].
          destruct (F32.le c avg) eqn:Hle; [split; [exact Hv | reflexivity]|].
          destruct (Z.gtb_spec ws 0) as [Hpos|Hnpos]; [|split; assumption].
          specialize (Hw Hpos). discriminate. }
      cbv zeta in H. destruct (for_range 0 size _ _) as [[[vl nv] w] ws].
      cbn [fst snd] in H. destruct H as [H _]. exact H. }
    rewrite E. reflexivity.
  - unfold thresholdPeakDetection.
    apply (for_range_preserve (fun st => st = ([], 0))); [reflexivity|].
    intros i st Hi ->.
    rewrite (Hc i) by lia. rewrite (Hc (i - 1)) by lia.
    unfold F32.gt at 1. rewrite SFltb_irrefl, andb_false_r. reflexivity.
Qed.

Lemma constant_signal_no_extrema_witness :
  valleyDetection (map F32.of_int [7; 7; 7; 7; 7]) 5 25 f_0_4 = ([], 0) /\
  thresholdPeakDetection (map F32.of_int [7; 7; 7; 7; 7]) 5 25 f_0_9 f_0_4 = ([], 0).
Proof.
  apply (constant_signal_no_extrema _ 5 25 f_0_9 f_0_4 (F32.of_int 7)).
  intros i Hi.
  assert (H : i = 0 \/ i = 1 \/ i = 2 \/ i = 3 \/ i = 4) by lia.
  destruct H as [->|[->|[->|[->| ->]]]]; reflexivity.
Defined.

Lemma covered_app (th : Z) (l l' : list Z) (j : Z) :
  covered th l j -> covered th (l ++ l') j.
Proof.
  intros [H|(p & Hp & H)]; [left | right; exists p; split; [|exact H]];
    apply in_or_app; left; assumption.
Qed.

Lemma accept_if_far_covers (P : Z -> Prop) (th c : Z) (st : list Z * Z) :
  accepted_sorted P c st -> covered th (fst (accept_if_far th c st)) c.
Proof.
  destruct st as [l n]. intros (Hn & Hall & _). cbn [fst snd] in *.
  unfold accept_if_far.
  destruct (Z.eqb_spec n 0) as [H0|H0]; cbn [orb].
  - left. apply in_or_app. right. left. reflexivity.
  - destruct (Z.gtb_spec (c - rdZ l (n - 1)) th) as [Hgt|Hle].
    + left. apply in_or_app. right. left. reflexivity.
    + right. cbn [fst]. exists (rdZ l (n - 1)).
      pose proof (len_nonneg l).
      assert (Hin : In (rdZ l (n - 1)) l).
      { unfold rdZ. rewrite rd_nth by lia. apply nth_In. unfold Arr.len in *. lia. }
      split; [exact Hin|].
      rewrite Forall_forall in Hall. destruct (Hall _ Hin) as [_ Hlt]. lia.
Qed.

Lemma accept_if_far_extends (th c : Z) (st : list Z * Z) :
  exists l', fst (accept_if_far th c st) = fst st ++ l'.
Proof.
  destruct st as [l n]. destruct (accept_if_far_cases th c l n) as [E|E]; rewrite E.
  - exists []. symmetry. apply app_nil_r.
  - exists [c]. reflexivity.
Qed.

(** X9. On a run that stays inside its peak buffer,
    [thresholdPeakDetection] misses a local maximum above the threshold only
    inside the refractory distance: every interior index that passes the
    test is returned or lies at most [TH_elapsed] samples after a returned
    peak, and the first index that passes the test is the first peak. *)
Theorem thresholdPeakDetection_complete (dataset : list spec_float) (size fs : Z)
    (threshold_factor min_distance : spec_float) (j : Z) :
  let thr := peak_threshold dataset size threshold_factor in
  let peaks := fst (thresholdPeakDetection dataset size fs threshold_factor min_distance) in
  within_capacity dataset size fs threshold_factor min_distance ->
  1 <= j <= size - 2 ->
  peak_candidate dataset thr j = true ->
  covered (TH_elapsed min_distance fs) peaks j /\
  ((forall k, 1 <= k < j -> peak_candidate dataset thr k = false) ->
   exists rest, peaks = j :: rest).
Proof.
  intros thr peaks _ Hj Hcand.
  set (th := TH_elapsed min_distance fs).
  set (P := fun p => 1 <= p /\ peak_candidate dataset thr p = true).
  change thr with (peak_threshold dataset size threshold_factor) in *. clear thr.
  set (thr := peak_threshold dataset size threshold_factor) in *.
  assert (H : accepted_sorted P (size - 1)
                (thresholdPeakDetection dataset size fs threshold_factor min_distance) /\
              (forall k, 1 <= k < size - 1 -> peak_candidate dataset thr k = true ->
                 covered th peaks k)).
  { unfold peaks, thresholdPeakDetection.
    fold (peak_threshold dataset size threshold_factor). fold thr. fold th.
    apply (for_range_inv
             (fun i st => accepted_sorted P i st /\
                (forall k, 1 <= k < i -> peak_candidate dataset thr k = true ->
                   covered th (fst st) k))).
    - lia.
    - split; [repeat split; constructor|]. intros k Hk. lia.
    - intros i st Hi [Hst Hcov].
      fold (peak_candidate dataset thr i).
      destruct (peak_candidate dataset thr i) eqn:E.
      + split; [apply accept_if_far_sorted; [split; [lia | exact E] | exact Hst]|].
        intros k Hk Hck. destruct (Z.eq_dec k i) as [->|Hne].
        * apply (accept_if_far_covers P). exact Hst.
        * destruct (accept_if_far_extends th i st) as [l' ->].
          apply covered_app. apply Hcov; [lia | exact Hck].
      + split; [apply (accepted_sorted_weaken P i); [lia | exact Hst]|].
        intros k Hk Hck. destruct (Z.eq_dec k i) as [->|Hne]; [congruence|].
        apply Hcov; [lia | exact Hck]. }
  destruct H as [(Hn & Hall & Hs) Hcov]. fold peaks in Hall, Hs.
  specialize (Hcov j ltac:(lia) Hcand). split; [exact Hcov|].
  intros Hleast.
  assert (Hin : In j peaks).
  { destruct Hcov as [Hin|(p & Hp & Hlt & _)]; [exact Hin|].
    rewrite Forall_forall in Hall. destruct (Hall p Hp) as [[Hp1 Hpc] _].
    rewrite Hleast in Hpc by lia. discriminate. }
  destruct peaks as [|a rest]; [contradiction|].
  exists rest. f_equal.
  destruct Hin as [Ha|Hin]; [exact Ha|].
  inversion Hs as [|? ? _ Hlt]; subst.
  rewrite Forall_forall in Hlt. specialize (Hlt j Hin).
  rewrite Forall_forall in Hall. destruct (Hall a (or_introl eq_refl)) as [[Ha1 Hac] _].
  rewrite Hleast in Hac by lia. discriminate.
Qed.

Lemma thresholdPeakDetection_complete_witness :
  let dataset :=
    map F32.of_int [0; 1; 0; 1; 0; 0; 0; 0; 0; 0; 0; 0; 0; 0; 0; 0; 0; 0; 0; 0] in
  within_capacity dataset 20 5 f_0_9 f_0_4 /\
  covered (TH_elapsed f_0_4 5) (fst (thresholdPeakDetection dataset 20 5 f_0_9 f_0_4)) 3 /\
  exists rest, fst (thresholdPeakDetection dataset 20 5 f_0_9 f_0_4) = 1 :: rest.
Proof.
  intros dataset.
  assert (H : within_capacity dataset 20 5 f_0_9 f_0_4).
  { unfold within_capacity. vm_compute. discriminate. }
  split; [exact H|]. split.
  - apply (proj1 (thresholdPeakDetection_complete dataset 20 5 f_0_9 f_0_4 3
                    H ltac:(lia) eq_refl)).
  - apply (proj2 (thresholdPeakDetection_complete dataset 20 5 f_0_9 f_0_4 1
                    H ltac:(lia) eq_refl)).
    intros k Hk. lia.
Defined.

Lemma compare_cont_Eq_Lt (p q : positive) :
  Pos.compare_cont Eq p q = Lt <-> (p < q)%positive.
Proof. apply Pos.compare_lt_iff. Qed.

Lemma SFltb_trans (x y z : spec_float) :
  SFltb x y = true -> SFltb y z = true -> SFltb x z = true.
Proof.
  unfold SFltb, SFcompare.
  destruct x as [sx|sx| |sx mx ex], y as [sy|sy| |sy my ey], z as [sz|sz| |sz mz ez];
    try discriminate;
    try (destruct sx); try (destruct sy); try (destruct sz);
    try discriminate; try reflexivity.
  all: intros H1 H2.
  all: destruct (Z.compare_spec ex ey) as [E1|E1|E1]; try discriminate;
       destruct (Z.compare_spec ey ez) as [E2|E2|E2]; try discriminate;
       destruct (Z.compare_spec ex ez) as [E3|E3|E3]; try lia; try reflexivity.
  all: change (Pos.compare_cont Eq) with Pos.compare in *.
  all: destruct (Pos.compare_spec mx my) as [F1|F1|F1]; try discriminate;
       destruct (Pos.compare_spec my mz) as [F2|F2|F2]; try discriminate;
       destruct (Pos.compare_spec mx mz) as [F3|F3|F3]; try lia; try reflexivity.
Qed.

Lemma SFltb_not_leb (a b : spec_float) : SFltb a b = true -> SFleb b a = false.
Proof.
  unfold SFltb, SFleb, SFcompare.
  destruct a as [sa|sa| |sa ma ea], b as [sb|sb| |sb mb eb];
    try discriminate; try (destruct sa); try (destruct sb);
    try discriminate; try reflexivity.
  all: intros H.
  all: rewrite (Z.compare_antisym ea eb) in *;
       destruct (Z.compare_spec ea eb) as [E|E|E]; cbn [CompOpp] in *;
         try discriminate; try reflexivity.
  all: change (Pos.compare_cont Eq) with Pos.compare in *;
       rewrite (Pos.compare_antisym ma mb) in *;
       destruct (Pos.compare_spec ma mb); cbn [CompOpp] in *;
         try discriminate; try reflexivity.
Qed.

Lemma window_min_argmin (dataset : list spec_float) (window : list Z) (window_size : Z) :
  0 < window_size ->
  let m := window_min dataset window window_size in
  0 <= m < window_size /\
  forall k, 0 <= k < window_size ->
    F32.lt (rdF dataset (rdZ window k)) (rdF dataset (rdZ window m)) = false.
Proof.
  intros Hws m. unfold m, window_min.
  assert (H : (fun j mi => 0 <= mi < j /\
                 forall k, 0 <= k < j ->
                   F32.lt (rdF dataset (rdZ window k)) (rdF dataset (rdZ window mi)) = false)
                window_size
                (for_range 1 window_size
                   (fun j min_index =>
                      if F32.lt (rdF dataset (rdZ window j))
                                (rdF dataset (rdZ window min_index))
                      then j else min_index) 0)).
  { apply for_range_inv.
    - lia.
    - split; [lia|]. intros k Hk. replace k with 0 by lia. apply SFltb_irrefl.
    - intros j mi Hj [Hmi Hmin].
      destruct (F32.lt (rdF dataset (rdZ window j)) (rdF dataset (rdZ window mi))) eqn:E.
      + split; [lia|]. intros k Hk.
        destruct (Z.eq_dec k j) as [->|Hne]; [apply SFltb_irrefl|].
        destruct (F32.lt (rdF dataset (rdZ window k)) (rdF dataset (rdZ window j))) eqn:E2;
          [|reflexivity].
        rewrite <- (Hmin k ltac:(lia)). symmetry.
        apply (SFltb_trans _ _ _ E2 E).
      + split; [lia|]. intros k Hk.
        destruct (Z.eq_dec k j) as [->|Hne]; [exact E|]. apply Hmin. lia. }
  cbv beta in H. destruct H as [H1 H2]. split; [lia | exact H2].
Qed.

Lemma valley_runs_step (dataset : list spec_float) (size : Z) (avg : spec_float)
    (i : Z) (st : list Z * Z * list Z * Z) :
  0 <= i < size ->
  valley_runs_ok dataset size avg i st ->
  valley_runs_ok dataset size avg (i + 1)
    (let '(valleyList, nvalleys, window, window_size) := st in
     if F32.gt (rdF dataset i) avg && (window_size <? 1) then st
     else if F32.le (rdF dataset i) avg then
       (valleyList, nvalleys, Arr.upd window window_size i, window_size + 1)
     else if window_size >? 0 then
       let min_index := window_min dataset window window_size in
       (valleyList ++ [rdZ window min_index], nvalleys + 1, window, 0)
     else st).
Proof.
  intros Hi. destruct st as [[[vl nv] w] ws].
  intros (Hws & Hlen & Hall & Hwin & Hbound).
  assert (Hidle : ws = 0 -> F32.le (rdF dataset i) avg = false ->
                  valley_runs_ok dataset size avg (i + 1) (vl, nv, w, ws)).
  { intros -> Hle. split; [lia|]. split; [exact Hlen|]. split; [exact Hall|].
    split; [intros k Hk; lia|]. right.
    replace (i + 1 - 0 - 1) with i by lia. exact Hle. }
  destruct (F32.gt (rdF dataset i) avg) eqn:Hgt; cbn [andb].
  - destruct (Z.ltb_spec ws 1) as [Hlt|Hge].
    + apply Hidle; [lia|]. apply SFltb_not_leb. exact Hgt.
    + rewrite (SFltb_not_leb _ _ Hgt : F32.le (rdF dataset i) avg = false).
      destruct (Z.gtb_spec ws 0) as [Hpos|Hnpos]; [|lia].
      destruct (window_min_argmin dataset w ws Hpos) as [Hm Hmin]. cbv zeta.
      split; [lia|]. split; [exact Hlen|]. split.
      * apply Forall_app. split; [exact Hall|]. constructor; [|constructor].
        exists (i - ws), (i - 1).
        destruct (Hwin _ Hm) as [Em _]. rewrite Em.
        split; [lia|]. split; [lia|]. split; [lia|]. split.
        { intros k Hk. destruct (Hwin (k - (i - ws)) ltac:(lia)) as [_ Hb].
          replace (i - ws + (k - (i - ws))) with k in Hb by lia. exact Hb. }
        split; [exact Hbound|]. split.
        { replace (i - 1 + 1) with i by lia. apply SFltb_not_leb. exact Hgt. }
        intros k Hk. specialize (Hmin (k - (i - ws)) ltac:(lia)).
        destruct (Hwin (k - (i - ws)) ltac:(lia)) as [Ek _].
        rewrite Ek, Em in Hmin.
        replace (i - ws + (k - (i - ws))) with k in Hmin by lia. exact Hmin.
      * split; [intros k Hk; lia|]. right.
        replace (i + 1 - 0 - 1) with i by lia. apply SFltb_not_leb. exact Hgt.
  - destruct (F32.le (rdF dataset i) avg) eqn:Hle.
    + split; [lia|]. split; [unfold Arr.len in *; rewrite upd_length; exact Hlen|].
      split; [exact Hall|]. split.
      * intros k Hk. destruct (Z.eq_dec k ws) as [->|Hne].
        -- unfold rdZ. rewrite rd_upd_same by lia.
           split; [lia|]. replace (i + 1 - (ws + 1) + ws) with i by lia. exact Hle.
        -- unfold rdZ. rewrite rd_upd_other by lia.
           destruct (Hwin k ltac:(lia)) as [Ek Hb]. unfold rdZ in Ek.
           replace (i + 1 - (ws + 1) + k) with (i - ws + k) by lia. split; assumption.
      * replace (i + 1 - (ws + 1)) with (i - ws) by lia. exact Hbound.
    + destruct (Z.gtb_spec ws 0) as [Hpos|Hnpos]; [|apply Hidle; [lia | reflexivity]].
      destruct (window_min_argmin dataset w ws Hpos) as [Hm Hmin]. cbv zeta.
      split; [lia|]. split; [exact Hlen|]. split.
      * apply Forall_app. split; [exact Hall|]. constructor; [|constructor].
        exists (i - ws), (i - 1).
        destruct (Hwin _ Hm) as [Em _]. rewrite Em.
        split; [lia|]. split; [lia|]. split; [lia|]. split.
        { intros k Hk. destruct (Hwin (k - (i - ws)) ltac:(lia)) as [_ Hb].
          replace (i - ws + (k - (i - ws))) with k in Hb by lia. exact Hb. }
        split; [exact Hbound|]. split.
        { replace (i - 1 + 1) with i by lia. exact Hle. }
        intros k Hk. specialize (Hmin (k - (i - ws)) ltac:(lia)).
        destruct (Hwin (k - (i - ws)) ltac:(lia)) as [Ek _].
        rewrite Ek, Em in Hmin.
        replace (i - ws + (k - (i - ws))) with k in Hmin by lia. exact Hmin.
      * split; [intros k Hk; lia|]. right.
        replace (i + 1 - 0 - 1) with i by lia. exact Hle.
Qed.

Lemma valley_candidates_runs (dataset : list spec_float) (size : Z) (avg : spec_float) :
  Forall (valley_of_run dataset size avg) (fst (valley_candidates dataset size avg)).
Proof.
  unfold valley_candidates.
  destruct (Z.le_gt_cases 0 size) as [Hsize|Hneg].
  - pose proof (for_range_inv (valley_runs_ok dataset size avg) 0 size
                  (fun i st =>
                     let '(valleyList, nvalleys, window, window_size) := st in
                     if F32.gt (rdF dataset i) avg && (window_size <? 1) then st
                     else if F32.le (rdF dataset i) avg then
                       (valleyList, nvalleys, Arr.upd window window_size i, window_size + 1)
                     else if window_size >? 0 then
                       let min_index := window_min dataset window window_size in
                       (valleyList ++ [rdZ window min_index], nvalleys + 1, window, 0)
                     else st)
                  ([], 0, malloc 0 size, 0) Hsize) as H.
    assert (H0 : valley_runs_ok dataset size avg 0 ([], 0, malloc 0 size, 0)).
    { split; [lia|]. split; [apply malloc_len; exact Hsize|].
      split; [constructor|]. split; [intros k Hk; lia | left; lia]. }
    specialize (H H0 (fun i st Hi Hst => valley_runs_step dataset size avg i st Hi Hst)).
    destruct (for_range 0 size _ _) as [[[vl nv] w] ws].
    destruct H as (_ & _ & Hall & _). exact Hall.
  - rewrite for_range_empty by lia. constructor.
Qed.

(** X4. Every valley [valleyDetection] returns is a minimum of a
    completed run of samples at or below the mean: the run starts at index 0 or
    after a sample above the mean, it is followed by a sample above the mean
    inside the signal (a run that reaches the end of the signal gives no
    valley), and no sample of the run is smaller than the valley's. *)
Theorem valleyDetection_run_minima (dataset : list spec_float) (size fs : Z)
    (min_distance : spec_float) :
  Forall (valley_of_run dataset size (signal_mean dataset size))
    (fst (valleyDetection dataset size fs min_distance)).
Proof.
  unfold valleyDetection. cbv zeta. fold (signal_mean dataset size).
  pose proof (valley_candidates_runs dataset size (signal_mean dataset size)) as Hruns.
  destruct (valley_candidates_ok dataset size (signal_mean dataset size))
    as (Hn & _ & _ & Hs).
  destruct (valley_candidates dataset size (signal_mean dataset size)) as [vl nv].
  cbn [fst snd] in *. subst nv.
  exact (proj1 (proj2 (proj2 (refractory_pass_sorted _ (TH_elapsed min_distance fs) vl Hs Hruns)))).
Qed.

Lemma eliminateNoiseInTime_kept (data : list spec_float) (size fs : Z)
    (ths : list spec_float) (cycle : Z) (valleys : list (Z * Z)) :
  let t := segment_thresholds data valleys ths in
  let kept := filter (retained t data) valleys in
  eliminateNoiseInTime data size fs ths cycle valleys (Arr.len valleys) =
  (flat_map (segment_samples data) kept, zsum (map segment_length kept)).
Proof.
  intros t kept. unfold eliminateNoiseInTime.
  rewrite statisticDetection_malloc. fold (segment_thresholds data valleys ths). fold t.
  rewrite (for_range_append
             (fun i => if retained t data (rdP valleys i) then [i] else [])).
  - set (valid_indices := flat_map _ (Arr.range 0 (Arr.len valleys))).
    rewrite app_nil_l, Z.add_0_l.
    rewrite (for_range_array 0
               (fun x final_size =>
                  final_size + (snd (rdP valleys x) - fst (rdP valleys x) + 1))).
    rewrite (for_range_array 0
               (fun x st =>
                  for_range (fst (rdP valleys x)) (snd (rdP valleys x) + 1)
                    (fun j (st : list spec_float * Z) =>
                       let '(filtered_data, idx) := st in
                       (filtered_data ++ [rdF data j], idx + 1)) st)).
    rewrite copy_segments.
    rewrite (sum_fold (fun x => snd (rdP valleys x) - fst (rdP valleys x) + 1)).
    assert (Hsel : map (rdP valleys) valid_indices = kept).
    { apply (valid_indices_select (retained t data)). }
    rewrite Hsel, app_nil_l, Z.add_0_l. f_equal.
    rewrite <- Hsel, map_map. reflexivity.
  - intros i b k Hi. unfold retained, rdF.
    rewrite !(rd_map (F32.zero, F32.zero, F32.zero) F32.zero)
      by (unfold Arr.len in *; rewrite length_map; exact Hi).
    rewrite !(rd_map (0, 0) (F32.zero, F32.zero, F32.zero)) by exact Hi.
    fold (rdP valleys i).
    destruct (within_thresholds _ _ _ _).
    + reflexivity.
    + rewrite app_nil_r. f_equal. unfold Arr.len. simpl. lia.
Qed.

Lemma F32_add_nan_r (x : spec_float) : F32.add x S754_nan = S754_nan.
Proof. destruct x; reflexivity. Qed.

Lemma F32_lt_nan_r (x : spec_float) : F32.lt x S754_nan = false.
Proof. destruct x; reflexivity. Qed.

Lemma F32_lt_nan_l (x : spec_float) : F32.lt S754_nan x = false.
Proof. reflexivity. Qed.

(** A NaN among the first [n] statistics of a kind makes the threshold of
    that kind NaN. *)
Lemma statisticThreshold_nan (stds kurtosiss skews : list spec_float) (n : Z)
    (ths : list spec_float) :
  let t := statisticThreshold stds kurtosiss skews n ths in
  ((exists j, 0 <= j < n /\ rdF stds j = S754_nan) -> std_ths t = S754_nan) /\
  ((exists j, 0 <= j < n /\ rdF kurtosiss j = S754_nan) -> kurt_ths t = S754_nan) /\
  ((exists j, 0 <= j < n /\ rdF skews j = S754_nan) ->
   skews_ths0 t = S754_nan /\ skews_ths1 t = S754_nan).
Proof.
  intros t. unfold t, statisticThreshold.
  destruct (Z.le_gt_cases 0 n) as [Hn|Hn].
  - pose proof (for_range_inv
      (fun i (st : spec_float * spec_float * spec_float) =>
         ((exists j, 0 <= j < i /\ rdF stds j = S754_nan) -> std_of st = S754_nan) /\
         ((exists j, 0 <= j < i /\ rdF kurtosiss j = S754_nan) -> kurt_of st = S754_nan) /\
         ((exists j, 0 <= j < i /\ rdF skews j = S754_nan) -> skew_of st = S754_nan))
      0 n
      (fun i '(std_sum, kurt_sum, skew_sum) =>
         (F32.add std_sum (rdF stds i), F32.add kurt_sum (rdF kurtosiss i),
          F32.add skew_sum (rdF skews i)))
      (F32.zero, F32.zero, F32.zero) Hn) as H.
    assert (H0 : forall a : list spec_float,
              (exists j, 0 <= j < 0 /\ rdF a j = S754_nan) -> F32.zero = S754_nan).
    { intros a (j & Hj & _). lia. }
    specialize (H (conj (H0 stds) (conj (H0 kurtosiss) (H0 skews)))).
    assert (Hstep : forall (a : list spec_float) (i : Z) (acc : spec_float),
              ((exists j, 0 <= j < i /\ rdF a j = S754_nan) -> acc = S754_nan) ->
              (exists j, 0 <= j < i + 1 /\ rdF a j = S754_nan) ->
              F32.add acc (rdF a i) = S754_nan).
    { intros a i acc IH (j & Hj & Hnan).
      destruct (Z.eq_dec j i) as [->|Hne].
      - rewrite Hnan. apply F32_add_nan_r.
      - rewrite IH by (exists j; split; [lia | exact Hnan]). reflexivity. }
    specialize (H (fun i st Hi =>
      match st with (a, b, c) => fun IH =>
        conj (Hstep stds i a (proj1 IH))
          (conj (Hstep kurtosiss i b (proj1 (proj2 IH)))
                (Hstep skews i c (proj2 (proj2 IH)))) end)).
    destruct (for_range 0 n _ _) as [[a b] c].
    unfold std_of, kurt_of, skew_of in H. cbn [fst snd] in H.
    destruct H as (Ha & Hb & Hc). cbn [std_ths kurt_ths skews_ths0 skews_ths1].
    split; [|split].
    + intros E. rewrite (Ha E). reflexivity.
    + intros E. rewrite (Hb E). reflexivity.
    + intros E. rewrite (Hc E). split; reflexivity.
  - split; [|split]; intros (j & Hj & _); lia.
Qed.

Lemma In_rd {A} (d : A) (a : list A) (x : A) :
  In x a -> exists j, 0 <= j < Arr.len a /\ Arr.rd d a j = x.
Proof.
  intros H. destruct (In_nth a x d H) as (n & Hn & Hx).
  exists (Z.of_nat n). split; [unfold Arr.len; lia|].
  rewrite rd_nth by lia. rewrite Nat2Z.id. exact Hx.
Qed.

Lemma filter_none {A} (p : A -> bool) (l : list A) :
  (forall x, p x = false) -> filter p l = [].
Proof.
  intros H. induction l as [|x l IH]; [reflexivity|]. simpl. rewrite H. exact IH.
Qed.

Lemma nan_statistic_rejects_all (data : list spec_float) (valleys : list (Z * Z))
    (ths : list spec_float) (bad : Z * Z) :
  In bad valleys -> has_nan_statistic data bad ->
  filter (retained (segment_thresholds data valleys ths) data) valleys = [].
Proof.
  intros Hin Hbad.
  destruct (In_rd (0, 0) valleys bad Hin) as (j & Hj & Hjb).
  pose proof (statisticThreshold_nan
                (map std_of (map (stats_of data) valleys))
                (map kurt_of (map (stats_of data) valleys))
                (map skew_of (map (stats_of data) valleys))
                (Arr.len valleys) ths) as H.
  cbv zeta in H. fold (segment_thresholds data valleys ths) in H.
  set (t := segment_thresholds data valleys ths) in *.
  assert (Hrd : forall f : spec_float * spec_float * spec_float -> spec_float,
            rdF (map f (map (stats_of data) valleys)) j = f (stats_of data bad)).
  { intros f. unfold rdF.
    rewrite (rd_map (F32.zero, F32.zero, F32.zero) F32.zero)
      by (unfold Arr.len in *; rewrite length_map; exact Hj).
    rewrite (rd_map (0, 0) (F32.zero, F32.zero, F32.zero)) by exact Hj.
    rewrite Hjb. reflexivity. }
  destruct H as (Hs & Hk & Hsk).
  assert (Hfalse : forall seg, retained t data seg = false).
  { intros seg. unfold retained, within_thresholds, F32.gt.
    destruct Hbad as [Hb|[Hb|Hb]].
    - rewrite Hs by (exists j; split; [exact Hj | rewrite Hrd; exact Hb]).
      rewrite F32_lt_nan_r. reflexivity.
    - rewrite Hk by (exists j; split; [exact Hj | rewrite Hrd; exact Hb]).
      rewrite F32_lt_nan_r, andb_false_r. reflexivity.
    - destruct Hsk as [H0 H1]; [exists j; split; [exact Hj | rewrite Hrd; exact Hb]|].
      rewrite H1. rewrite F32_lt_nan_r, andb_false_r. reflexivity. }
  apply filter_none. exact Hfalse.
Qed.

(** X6. One segment with a NaN statistic empties the whole output
    of [eliminateNoiseInTime]: the NaN enters the sums of
    [statisticThreshold], every threshold becomes NaN and no segment passes
    the comparisons.  In particular a segment [(k, k)] of one valid sample,
    whose kurtosis is 0/0, makes the function return no sample at all. *)
Theorem nan_segment_empties_output (data : list spec_float) (size fs : Z)
    (ths : list spec_float) (cycle : Z) (valleys : list (Z * Z)) :
  ((exists bad, In bad valleys /\ has_nan_statistic data bad) ->
   eliminateNoiseInTime data size fs ths cycle valleys (Arr.len valleys) = ([], 0)) /\
  (forall k, In (k, k) valleys -> F32.valid (rdF data k) = true ->
   eliminateNoiseInTime data size fs ths cycle valleys (Arr.len valleys) = ([], 0)).
Proof.
  assert (G : (exists bad, In bad valleys /\ has_nan_statistic data bad) ->
              eliminateNoiseInTime data size fs ths cycle valleys (Arr.len valleys) = ([], 0)).
  { intros (bad & Hin & Hbad).
    rewrite eliminateNoiseInTime_kept.
    rewrite (nan_statistic_rejects_all data valleys ths bad Hin Hbad). reflexivity. }
  split; [exact G|].
  intros k Hin Hv. apply G. exists (k, k). split; [exact Hin|].
  right. left.
  pose proof (segment_statistics_single data k Hv) as H.
  unfold stats_of, kurt_of. cbn [fst snd].
  destruct (segment_statistics data k k) as [[a b] c]. cbn [fst snd]. tauto.
Qed.

Lemma nan_segment_empties_output_witness :
  eliminateNoiseInTime (map F32.of_int [1; 2; 3; 4; 9; 1; 7; 3]) 8 25
    (map F32.of_int [1; 1; 1; 1]) 0 [(0, 3); (4, 4); (3, 6)]
    (Arr.len [(0, 3); (4, 4); (3, 6)]) = ([], 0).
Proof.
  apply (proj2 (nan_segment_empties_output (map F32.of_int [1; 2; 3; 4; 9; 1; 7; 3]) 8 25
                  (map F32.of_int [1; 1; 1; 1]) 0 [(0, 3); (4, 4); (3, 6)]) 4).
  - right. left. reflexivity.
  - reflexivity.
Defined.

Lemma segment_samples_In (data : list spec_float) (seg : Z * Z) :
  0 <= fst seg -> snd seg < Arr.len data ->
  Forall (fun x => In x data) (segment_samples data seg).
Proof.
  intros Hlo Hhi. unfold segment_samples, Arr.slice.
  apply Forall_forall. intros x Hx. apply in_map_iff in Hx.
  destruct Hx as (i & <- & Hi). apply range_In in Hi.
  rewrite rd_nth by lia. apply nth_In. unfold Arr.len in *. lia.
Qed.

(** X7. [valleyDetection], [pairValley] and [eliminateNoiseInTime]
    composed on a signal that fills its array: the count returned is the
    length of the cleaned signal, and every sample of the cleaned signal is a
    sample of the input. *)
Theorem detected_segments_cleaning (data : list spec_float) (size fs : Z)
    (min_distance : spec_float) (ths : list spec_float) (cycle : Z) :
  size <= Arr.len data ->
  let valleys := valleyDetection data size fs min_distance in
  let segments := pairValley (fst valleys) (snd valleys) in
  let out := eliminateNoiseInTime data size fs ths cycle segments (Arr.len segments) in
  snd out = Arr.len (fst out) /\
  Forall (fun x => In x data) (fst out).
Proof.
  intros Hsize valleys segments out.
  destruct (detected_segments_in_bounds data size fs min_distance) as [_ Hsegs].
  fold valleys in Hsegs. fold segments in Hsegs.
  unfold out. rewrite eliminateNoiseInTime_kept. cbn [fst snd].
  set (kept := filter _ segments).
  assert (Hkept : Forall (fun seg => 0 <= fst seg /\ fst seg < snd seg /\ snd seg < size)
                    kept).
  { apply Forall_forall. intros seg Hseg. unfold kept in Hseg.
    apply filter_In in Hseg. rewrite Forall_forall in Hsegs. apply Hsegs. tauto. }
  split.
  - symmetry. apply len_flat_map_samples.
    eapply Forall_impl; [|exact Hkept]. simpl. intros seg H. lia.
  - clear -Hkept Hsize. induction Hkept as [|seg l Hseg _ IH]; [constructor|].
    simpl. apply Forall_app. split; [|exact IH].
    apply segment_samples_In; lia.
Qed.

Lemma detected_segments_cleaning_witness :
  let data := map F32.of_int [5; 1; 5; 9; 5; 2; 1; 5; 0; 5] in
  let valleys := valleyDetection data 10 25 F32.zero in
  let segments := pairValley (fst valleys) (snd valleys) in
  let out := eliminateNoiseInTime data 10 25 (map F32.of_int [1; 1; 1; 1]) 0
               segments (Arr.len segments) in
  snd out = Arr.len (fst out) /\ Forall (fun x => In x data) (fst out).
Proof.
  intros data.
  apply (detected_segments_cleaning data 10 25 F32.zero (map F32.of_int [1; 1; 1; 1]) 0).
  unfold Arr.len. simpl. lia.
Defined.

(** ** RR intervals and metrics *)

Lemma calcRrIntervals_loop (peaks : list Z) (peakCount fs : Z) :
  1 <= peakCount ->
  let st :=
    for_range 1 peakCount (fun i '(rr_intervals, rr_idx) =>
      let rr_interval :=
        wrap32 (Z.quot (wrap32 (wrap32 (rdZ peaks i - rdZ peaks (i - 1)) * 1000)) fs) in
      if (rr_interval >=? 300) && (rr_interval <=? 1500)
      then (rr_intervals ++ [rr_interval], rr_idx + 1)
      else (rr_intervals, rr_idx)) ([], 0) in
  snd st = Arr.len (fst st) /\ snd st <= peakCount - 1 /\
  Forall (fun r => 300 <= r <= 1500) (fst st).
Proof.
  intros Hn st. unfold st.
  apply (for_range_inv
           (fun i (st : list Z * Z) =>
              snd st = Arr.len (fst st) /\ snd st <= i - 1 /\
              Forall (fun r => 300 <= r <= 1500) (fst st))).
  - exact Hn.
  - cbn [fst snd]. repeat split; try constructor. lia.
  - intros i [l k] Hi (Hk & Hle & Hall). cbn [fst snd] in *. cbv zeta.
    set (r := wrap32 _).
    destruct (Z.geb_spec r 300) as [H300|H300]; cbn [andb];
      [destruct (Z.leb_spec r 1500) as [H1500|H1500]|]; cbn [fst snd].
    + split; [rewrite len_app; subst k; reflexivity|]. split; [lia|].
      apply Forall_app. split; [exact Hall | constructor; [lia | constructor]].
    + repeat split; try assumption; lia.
    + repeat split; try assumption; lia.
Qed.

(** X11. For a sampling rate [fs > 0] and [peakCount] peaks of the array,
    whatever their values (the wrap-around of the 32-bit difference and
    product included), [calcRrIntervals] returns either the NULL array with
    count 0 or, for at least two peaks, a non-empty array: its length is the
    count, between 1 and [peakCount - 1], and every interval in it is
    between 300 and 1500 ms. *)
Theorem calcRrIntervals_bounds (peaks : list Z) (peakCount fs : Z) :
  0 < fs ->
  peakCount <= Arr.len peaks ->
  match calcRrIntervals peaks peakCount fs with
  | (None, rrCount) => rrCount = 0
  | (Some rr_intervals, rrCount) =>
      2 <= peakCount /\ 1 <= rrCount /\ rrCount = Arr.len rr_intervals /\
      rrCount <= peakCount - 1 /\
      Forall (fun r => 300 <= r <= 1500) rr_intervals
  end.
Proof.
  intros _ _. unfold calcRrIntervals.
  destruct (Z.ltb_spec peakCount 2) as [Hlt|Hge]; [reflexivity|].
  pose proof (calcRrIntervals_loop peaks peakCount fs ltac:(lia)) as H. cbv zeta in H.
  destruct (for_range 1 peakCount _ _) as [l k]. cbn [fst snd] in H.
  destruct H as (Hk & Hle & Hall). subst k. rewrite realloc_full.
  destruct (Z.eqb_spec (Arr.len l) 0) as [E|E]; [exact E|].
  pose proof (len_nonneg l).
  split; [exact Hge|]. split; [lia|]. split; [reflexivity|]. split; [exact Hle | exact Hall].
Qed.

Lemma calcRrIntervals_bounds_witness :
  0 < 200 /\
  5 <= Arr.len [0; 100; 130; 330; 640] /\
  match calcRrIntervals [0; 100; 130; 330; 640] 5 200 with
  | (None, rrCount) => rrCount = 0
  | (Some rr_intervals, rrCount) =>
      2 <= 5 /\ 1 <= rrCount /\ rrCount = Arr.len rr_intervals /\
      rrCount <= 5 - 1 /\
      Forall (fun r => 300 <= r <= 1500) rr_intervals
  end.
Proof.
  assert (H1 : 0 < 200) by lia.
  assert (H2 : 5 <= Arr.len [0; 100; 130; 330; 640]) by (vm_compute; discriminate).
  split; [exact H1|]. split; [exact H2|].
  exact (calcRrIntervals_bounds [0; 100; 130; 330; 640] 5 200 H1 H2).
Defined.

Lemma binary_round_aux_sign (prec emax : Z) (s : bool) (m e : Z) (l : location) :
  match binary_round_aux prec emax s m e l with
  | S754_finite s' _ _ => s' = s
  | _ => True
  end.
Proof.
  unfold binary_round_aux.
  destruct (shr_fexp prec emax m e l) as [mrs' e'].
  destruct (shr_fexp prec emax _ e' loc_Exact) as [mrs'' e''].
  destruct (shr_m mrs''); try exact I.
  destruct (e'' <=? emax - prec); [reflexivity | exact I].
Qed.

(** A square root is never a negative number. *)
Lemma F32_sqrt_not_negative (x : spec_float) (m : positive) (e : Z) :
  F32.sqrt x <> S754_finite true m e.
Proof.
  unfold F32.sqrt, SFsqrt. destruct x as [s|s| |s mx ex]; try discriminate.
  - destruct s; discriminate.
  - destruct s; [discriminate|].
    destruct (SFsqrt_core_binary F32.prec F32.emax (Zpos mx) ex) as [[mz ez] lz].
    pose proof (binary_round_aux_sign F32.prec F32.emax false mz ez lz) as H.
    destruct (binary_round_aux _ _ _ _ _ _); try discriminate.
    intros E. inversion E; subst. discriminate.
Qed.

(** X12. [estimateRRIntervalConsistency] returns -1 for fewer than two
    intervals; for two or more it never returns -1 (NaN included) and its
    value is the SDNN entry of [calculateHRVMetrics] on the same
    intervals. *)
Theorem estimateRRIntervalConsistency_sdnn (rr_intervals : list Z) (rrCount : Z) :
  (rrCount < 2 -> estimateRRIntervalConsistency rr_intervals rrCount = F32.of_int (-1)) /\
  (2 <= rrCount ->
   estimateRRIntervalConsistency rr_intervals rrCount <> F32.of_int (-1) /\
   exists heartRate rmssd,
     calculateHRVMetrics rr_intervals rrCount =
     (Some [heartRate; estimateRRIntervalConsistency rr_intervals rrCount; rmssd], 3)).
Proof.
  split.
  - intros H. unfold estimateRRIntervalConsistency.
    destruct (Z.ltb_spec rrCount 2); [reflexivity | lia].
  - intros H. unfold estimateRRIntervalConsistency, calculateHRVMetrics.
    destruct (Z.ltb_spec rrCount 2); [lia|].
    destruct (Z.eqb_spec rrCount 0); [lia|].
    split.
    + change (F32.of_int (-1)) with (S754_finite true 8388608 (-23)).
      apply F32_sqrt_not_negative.
    + eauto.
Qed.

Lemma estimateRRIntervalConsistency_sdnn_witness :
  estimateRRIntervalConsistency [800] 1 = F32.of_int (-1) /\
  estimateRRIntervalConsistency [800; 820; 790] 3 <> F32.of_int (-1).
Proof.
  split.
  - apply (proj1 (estimateRRIntervalConsistency_sdnn [800] 1)). lia.
  - apply (proj2 (estimateRRIntervalConsistency_sdnn [800; 820; 790] 3)). lia.
Defined.

(** X13. When [calcRrIntervals] keeps a single interval [r],
    [calculateHRVMetrics] on its result returns three metrics: the heart rate
    [60000 / r], SDNN [+0] and RMSSD NaN (a mean over zero differences). *)
Theorem single_interval_pipeline (peaks : list Z) (peakCount fs r : Z) :
  calcRrIntervals peaks peakCount fs = (Some [r], 1) ->
  calculateHRVMetrics [r] 1 = (Some [heart_rate_of r; S754_zero false; S754_nan], 3).
Proof.
  intros E. pose proof (calcRrIntervals_loop peaks peakCount fs) as H.
  unfold calcRrIntervals in E.
  destruct (Z.ltb_spec peakCount 2) as [Hlt|Hge]; [discriminate|].
  specialize (H ltac:(lia)). cbv zeta in H.
  destruct (for_range 1 peakCount _ _) as [l k]. cbn [fst snd] in H.
  destruct H as (Hk & _ & Hall). subst k. rewrite realloc_full in E.
  destruct (Arr.len l =? 0); [discriminate|].
  inversion E; subst.
  inversion Hall as [|? ? Hr _]; subst.
  apply single_interval_metrics, physiological_rr_finite, Hr.
Qed.

Lemma single_interval_pipeline_witness :
  calculateHRVMetrics [500] 1 = (Some [heart_rate_of 500; S754_zero false; S754_nan], 3).
Proof.
  apply (single_interval_pipeline [0; 100] 2 200 500). reflexivity.
Defined.

(** ** The moving average at the left edge *)

Lemma movingAverageFilter_rd (input output : list spec_float) (size windowSize i : Z) :
  0 <= size <= Arr.len output -> 0 <= i < size ->
  rdF (movingAverageFilter input output size windowSize) i =
  F32.div (fst (window_sum input i windowSize))
          (F32.of_int (snd (window_sum input i windowSize))).
Proof.
  intros Hsize Hi.
  assert (E : movingAverageFilter input output size windowSize =
              for_range 0 size
                (fun i out => Arr.upd out i
                   (F32.div (fst (window_sum input i windowSize))
                            (F32.of_int (snd (window_sum input i windowSize))))) output).
  { unfold movingAverageFilter. apply for_range_ext.
    intros j s _. destruct (window_sum input j windowSize) as [sum count].
    reflexivity. }
  rewrite E.
  destruct (for_range_store F32.zero
              (fun i => F32.div (fst (window_sum input i windowSize))
                                (F32.of_int (snd (window_sum input i windowSize))))
              size output Hsize) as [_ Hrd].
  unfold rdF. rewrite Hrd.
  destruct (Z.leb_spec 0 i), (Z.ltb_spec i size); simpl; try lia. reflexivity.
Qed.

Lemma window_mean_single (input : list spec_float) (i : Z) :
  F32.valid (rdF input i) = true ->
  window_mean input i i = positive_zero (rdF input i).
Proof.
  intros Hf. unfold window_mean, Arr.slice.
  rewrite range_cons, range_empty by lia. cbn [map rev app fold_left].
  replace (i - i + 1) with 1 by lia.
  fold (rdF input i).
  destruct (rdF input i) as [[|]|[|]| |s m e]; try reflexivity.
  change (F32.add F32.zero (S754_finite s m e)) with (S754_finite s m e).
  apply F32_div_one. exact Hf.
Qed.

(** X2. For a window of at least one sample [movingAverageFilter]
    returns the first sample as it is, whatever binary32 value it has
    (finite, infinite or NaN), except that a negative zero comes out as
    [+0], the sum being accumulated from [+0] (the window is cut at the left
    edge to that one sample); with [windowSize = 1] this holds of every
    sample. *)
Theorem movingAverageFilter_edge (input output : list spec_float) (size windowSize : Z) :
  0 <= size <= Arr.len output ->
  1 <= windowSize ->
  let out := movingAverageFilter input output size windowSize in
  (0 < size -> F32.valid (rdF input 0) = true ->
   rdF out 0 = positive_zero (rdF input 0)) /\
  (windowSize = 1 ->
   forall i, 0 <= i < size -> F32.valid (rdF input i) = true ->
             rdF out i = positive_zero (rdF input i)).
Proof.
  intros Hsize Hw out. split.
  - intros Hpos Hf. unfold out. rewrite movingAverageFilter_rd by lia.
    rewrite window_sum_spec by lia. cbn [fst snd].
    replace (Z.max 0 (0 - windowSize + 1)) with 0 by lia.
    apply (window_mean_single input 0 Hf).
  - intros -> i Hi Hf. unfold out. rewrite movingAverageFilter_rd by lia.
    rewrite window_sum_spec by lia. cbn [fst snd].
    replace (Z.max 0 (i - 1 + 1)) with i by lia.
    apply (window_mean_single input i Hf).
Qed.

Lemma movingAverageFilter_edge_witness :
  let input := [S754_zero true; F32.of_int 2; F32.of_int 3; S754_infinity false] in
  let output := map F32.of_int [0; 0; 0; 0] in
  rdF (movingAverageFilter input output 4 3) 0 = positive_zero (rdF input 0) /\
  rdF (movingAverageFilter input output 4 1) 2 = positive_zero (rdF input 2).
Proof.
  intros input output. split.
  - apply (proj1 (movingAverageFilter_edge input output 4 3
                    ltac:(unfold Arr.len; simpl; lia) ltac:(lia))); [lia | reflexivity].
  - apply (proj2 (movingAverageFilter_edge input output 4 1
                    ltac:(unfold Arr.len; simpl; lia) ltac:(lia)));
      [reflexivity | lia | reflexivity].
Defined.

(** ** The bandpass filter *)

(** X1. [bandpassFilter] writes exactly the cells [0 .. size-1] of the
    output array: the first two are the input samples converted to [float],
    every later one satisfies the filter recurrence on the input and on the
    two outputs before it, the cells from [size] on and the length of the
    array are left as they were, and an all-zero input gives an all-zero
    output. *)
Theorem bandpassFilter_recurrence (input : list Z) (output : list spec_float) (size : Z) :
  0 <= size <= Arr.len output ->
  let out := bandpassFilter input output size in
  length out = length output /\
  (forall i, size <= i -> rdF out i = rdF output i) /\
  (forall i, 0 <= i < size -> i < 2 -> rdF out i = F32.of_int (rdZ input i)) /\
  (forall i, 2 <= i < size ->
     rdF out i = bandpass_step (rdZ input i) (rdZ input (i - 1)) (rdZ input (i - 2))
                   (rdF out (i - 1)) (rdF out (i - 2))) /\
  ((forall i, 0 <= i < size -> rdZ input i = 0) ->
   forall i, 0 <= i < size -> rdF out i = F32.zero).
Proof.
  intros Hsize out.
  assert (H : length out = length output /\
              (forall i, size <= i -> rdF out i = rdF output i) /\
              (forall i, 0 <= i < size ->
                 rdF out i =
                 if i <? 2 then F32.of_int (rdZ input i)
                 else bandpass_step (rdZ input i) (rdZ input (i - 1)) (rdZ input (i - 2))
                        (rdF out (i - 1)) (rdF out (i - 2)))).
  { unfold out, bandpassFilter.
    apply (for_range_inv
      (fun j o =>
         length o = length output /\
         (forall i, j <= i -> rdF o i = rdF output i) /\
         (forall i, 0 <= i < j ->
            rdF o i =
            if i <? 2 then F32.of_int (rdZ input i)
            else bandpass_step (rdZ input i) (rdZ input (i - 1)) (rdZ input (i - 2))
                   (rdF o (i - 1)) (rdF o (i - 2))))).
    - lia.
    - split; [reflexivity|]. split; [reflexivity|]. intros i Hi. lia.
    - intros j o Hj (Hlen & Hframe & Hrec).
      assert (Hw : forall v i, i <> j -> rdF (Arr.upd o j v) i = rdF o i).
      { intros v i Hne. unfold rdF. apply rd_upd_other. lia. }
      assert (Hs : forall v, rdF (Arr.upd o j v) j = v).
      { intros v. unfold rdF. apply rd_upd_same. unfold Arr.len in *. lia. }
      destruct (Z.ltb_spec j 2) as [Hlt|Hge].
      + split; [rewrite upd_length; exact Hlen|]. split.
        * intros i Hi. rewrite Hw by lia. apply Hframe. lia.
        * intros i Hi. destruct (Z.eq_dec i j) as [->|Hne].
          -- rewrite Hs. destruct (Z.ltb_spec j 2); [reflexivity | lia].
          -- rewrite !Hw by lia. apply Hrec. lia.
      + split; [rewrite upd_length; exact Hlen|]. split.
        * intros i Hi. rewrite Hw by lia. apply Hframe. lia.
        * intros i Hi. destruct (Z.eq_dec i j) as [->|Hne].
          -- rewrite Hs, !Hw by lia. destruct (Z.ltb_spec j 2); [lia | reflexivity].
          -- rewrite Hw by lia. rewrite Hrec by lia.
             destruct (Z.ltb_spec i 2); [reflexivity|].
             rewrite !Hw by lia. reflexivity. }
  destruct H as (Hlen & Hframe & Hrec).
  split; [exact Hlen|]. split; [exact Hframe|]. split; [|split].
  - intros i Hi Hlt. rewrite Hrec by lia.
    destruct (Z.ltb_spec i 2); [reflexivity | lia].
  - intros i Hi. rewrite Hrec by lia.
    destruct (Z.ltb_spec i 2); [lia | reflexivity].
  - intros Hzero.
    assert (G : forall n : nat, forall i, 0 <= i < size -> i <= Z.of_nat n ->
              rdF out i = F32.zero).
    { induction n as [|n IH]; intros i Hi Hn.
      - rewrite Hrec by lia. replace i with 0 by lia. cbn [Z.ltb Z.compare].
        rewrite Hzero by lia. reflexivity.
      - rewrite Hrec by lia. destruct (Z.ltb_spec i 2).
        + rewrite Hzero by lia. reflexivity.
        + rewrite !Hzero by lia. rewrite !IH by lia. reflexivity. }
    intros i Hi. apply (G (Z.to_nat i)); lia.
Qed.

Lemma bandpassFilter_recurrence_witness :
  let input := [0; 0; 0; 0] in
  let output := map F32.of_int [9; 9; 9; 9; 9] in
  rdF (bandpassFilter input output 4) 1 = F32.of_int 0 /\
  rdF (bandpassFilter input output 4) 3 = F32.zero /\
  rdF (bandpassFilter input output 4) 4 = F32.of_int 9.
Proof.
  intros input output.
  pose proof (bandpassFilter_recurrence input output 4
                ltac:(unfold Arr.len; simpl; lia)) as H.
  cbv zeta in H. destruct H as (_ & Hframe & Hfirst & _ & Hzero).
  split; [apply Hfirst; lia|]. split.
  - apply Hzero; [|lia]. intros i Hi.
    assert (Hc : i = 0 \/ i = 1 \/ i = 2 \/ i = 3) by lia.
    destruct Hc as [->|[->|[->| ->]]]; reflexivity.
  - apply (Hframe 4). lia.
Defined.

(** ** PPGManager: the byte stream *)

Lemma land_255 (z : Z) : Z.land z 255 = z mod 256.
Proof. change 255 with (Z.ones 8). rewrite Z.land_ones by lia. reflexivity. Qed.

(** X14. The two data bytes [batchPPGData] sends for a reading are
    bytes, and read big-endian they give the reading modulo 65536: the bits
    of the 32-bit sensor value above the 16th are not transmitted. *)
Theorem sample_bytes_decode (ppgSignal : Z) :
  0 <= high_byte ppgSignal <= 255 /\
  0 <= low_byte ppgSignal <= 255 /\
  high_byte ppgSignal * 256 + low_byte ppgSignal = ppgSignal mod 65536.
Proof.
  unfold high_byte, low_byte, wrap16.
  rewrite !land_255, Z.shiftr_div_pow2 by lia.
  change (2 ^ 15) with 32768. change (2 ^ 16) with 65536. change (2 ^ 8) with 256.
  Z.div_mod_to_equations. lia.
Qed.

Lemma batch_bytes (b : list Z) (s : Z) :
  ((b ++ [high_byte s]) ++ [low_byte s]) ++ [delimiter] = b ++ sample_bytes s.
Proof. unfold sample_bytes. rewrite <- !app_assoc. reflexivity. Qed.

Lemma len_sample_bytes (b : list Z) (s : Z) :
  Arr.len (b ++ sample_bytes s) = Arr.len b + 3.
Proof. unfold Arr.len. rewrite length_app. simpl length. lia. Qed.

Lemma firstn_len {A} (l : list A) : firstn (Z.to_nat (Arr.len l)) l = l.
Proof. unfold Arr.len. rewrite Nat2Z.id. apply firstn_all. Qed.

Lemma batchPPGData_step (c : bool) (s : Z) (m : PPGManager) :
  batchPPGData c s m =
  let batch := dataBatch m ++ sample_bytes s in
  if Arr.len (dataBatch m) + 3 >=? packetSize then
    mkPPGManager (PPGindex m) (recordingStartTime m) (recordingInProgress m)
      (ppgRawData m) [] (sensor_awake m)
      (if c then notified m ++ [batch] else notified m)
  else
    mkPPGManager (PPGindex m) (recordingStartTime m) (recordingInProgress m)
      (ppgRawData m) batch (sensor_awake m) (notified m).
Proof.
  unfold batchPPGData, sendRawPpgData. cbv zeta.
  rewrite batch_bytes, len_sample_bytes.
  destruct (Arr.len (dataBatch m) + 3 >=? packetSize); [|reflexivity].
  rewrite <- (len_sample_bytes (dataBatch m) s), firstn_len. reflexivity.
Qed.

(** X15. [batchPPGData] cuts the byte stream of the readings (three
    bytes each, after the bytes already pending) into packets of exactly 18
    bytes: the packets in order followed by the pending batch are the stream,
    fewer than six readings stay pending, and a packet is notified when the
    link is connected at the call that completes it and discarded otherwise
    (so with the link up throughout nothing is lost, and with it down
    throughout nothing is sent). *)
Theorem batchPPGData_stream (readings : list (bool * Z)) (m : PPGManager) :
  batch_aligned m ->
  let m' := batch_all readings m in
  exists packets : list (bool * list Z),
    Forall (fun p => Arr.len (snd p) = packetSize) packets /\
    concat (map snd packets) ++ dataBatch m' =
      dataBatch m ++ flat_map sample_bytes (map snd readings) /\
    notified m' = notified m ++ map snd (filter fst packets) /\
    (forall c, Forall (fun r => fst r = c) readings ->
               Forall (fun p => fst p = c) packets) /\
    batch_aligned m'.
Proof.
  revert m. induction readings as [|[c s] rest IH]; intros m Hal; cbv zeta.
  - exists []. cbn. rewrite !app_nil_r. repeat split; auto.
  - unfold batch_all. cbn [fold_left fst snd].
    fold (batch_all rest (batchPPGData c s m)).
    destruct Hal as (k & Hk & Hlen).
    pose proof (batchPPGData_step c s m) as Hstep. cbv zeta in Hstep.
    unfold packetSize in *.
    destruct (Arr.len (dataBatch m) + 3 >=? 18) eqn:Hfull.
    + assert (Hal1 : batch_aligned (batchPPGData c s m)).
      { exists 0. rewrite Hstep. cbn. split; [lia | reflexivity]. }
      destruct (IH _ Hal1) as (ps & Hps & Hcat & Hnot & Hflag & Hal').
      exists ((c, dataBatch m ++ sample_bytes s) :: ps).
      assert (Hd : dataBatch (batchPPGData c s m) = []) by (rewrite Hstep; reflexivity).
      assert (Hn : notified (batchPPGData c s m) =
                   if c then notified m ++ [dataBatch m ++ sample_bytes s] else notified m)
        by (rewrite Hstep; reflexivity).
      rewrite Hd in Hcat. rewrite Hn in Hnot.
      split; [|split; [|split; [|split]]].
      * constructor; [|exact Hps]. cbn [snd]. rewrite len_sample_bytes. lia.
      * cbn [map snd concat flat_map]. rewrite <- !app_assoc. f_equal.
        rewrite Hcat. reflexivity.
      * rewrite Hnot. cbn [filter fst]. destruct c; cbn [map snd].
        -- rewrite <- app_assoc. reflexivity.
        -- reflexivity.
      * intros c' Hall. inversion Hall as [|? ? Hc Hr].
        constructor; [exact Hc | apply Hflag; exact Hr].
      * exact Hal'.
    + assert (Hal1 : batch_aligned (batchPPGData c s m)).
      { exists (k + 1). rewrite Hstep. cbn [dataBatch].
        rewrite len_sample_bytes. split; lia. }
      destruct (IH _ Hal1) as (ps & Hps & Hcat & Hnot & Hflag & Hal').
      exists ps.
      assert (Hd : dataBatch (batchPPGData c s m) = dataBatch m ++ sample_bytes s)
        by (rewrite Hstep; reflexivity).
      assert (Hn : notified (batchPPGData c s m) = notified m)
        by (rewrite Hstep; reflexivity).
      rewrite Hd in Hcat. rewrite Hn in Hnot.
      split; [|split; [|split; [|split]]].
      * exact Hps.
      * rewrite Hcat. cbn [map snd flat_map]. rewrite <- !app_assoc. reflexivity.
      * exact Hnot.
      * intros c' Hall. inversion Hall as [|? ? Hc Hr]. apply Hflag; exact Hr.
      * exact Hal'.
Qed.

Lemma batchPPGData_stream_witness :
  exists packets : list (bool * list Z),
    Forall (fun p => Arr.len (snd p) = packetSize) packets /\
    concat (map snd packets) ++
      dataBatch (batch_all (map (fun g => (true, g)) [1; 2; 3; 4; 5; 6; 70000]) ppg0) =
      dataBatch ppg0 ++
      flat_map sample_bytes (map snd (map (fun g => (true, g)) [1; 2; 3; 4; 5; 6; 70000])) /\
    notified (batch_all (map (fun g => (true, g)) [1; 2; 3; 4; 5; 6; 70000]) ppg0) =
      notified ppg0 ++ map snd (filter fst packets) /\
    (forall c, Forall (fun r => fst r = c) (map (fun g => (true, g)) [1; 2; 3; 4; 5; 6; 70000]) ->
               Forall (fun p => fst p = c) packets) /\
    batch_aligned (batch_all (map (fun g => (true, g)) [1; 2; 3; 4; 5; 6; 70000]) ppg0).
Proof.
  apply (batchPPGData_stream (map (fun g => (true, g)) [1; 2; 3; 4; 5; 6; 70000]) ppg0).
  exists 0. split; [lia | reflexivity].
Defined.

(** ** PPGManager: the recording window *)

Lemma elapsed_wrap (start e : Z) :
  0 <= e < 2 ^ 32 -> wrapu32 (wrapu32 (start + e) - start) = e.
Proof.
  unfold wrapu32. change (2 ^ 32) with 4294967296. intros He.
  Z.div_mod_to_equations. lia.
Qed.

Lemma batchPPGData_frame (c : bool) (s : Z) (m : PPGManager) :
  recordingInProgress (batchPPGData c s m) = recordingInProgress m /\
  recordingStartTime (batchPPGData c s m) = recordingStartTime m /\
  sensor_awake (batchPPGData c s m) = sensor_awake m /\
  PPGindex (batchPPGData c s m) = PPGindex m /\
  ppgRawData (batchPPGData c s m) = ppgRawData m.
Proof.
  rewrite batchPPGData_step. cbv zeta.
  destruct (_ >=? _); cbn; repeat split; reflexivity.
Qed.

Lemma poll_after_window (start : Z) (polls : list (Z * (bool * Z))) (m : PPGManager) :
  recordingInProgress m = true -> recordingStartTime m = start ->
  Forall (fun p => 0 <= fst p < COLLECTION_TIME) polls ->
  poll_after start polls m = batch_all (map snd polls) m /\
  recordingInProgress (poll_after start polls m) = true /\
  recordingStartTime (poll_after start polls m) = start /\
  sensor_awake (poll_after start polls m) = sensor_awake m.
Proof.
  revert m. induction polls as [|[e [c g]] rest IH]; intros m Hin Hst Hall.
  - cbn. auto.
  - inversion Hall as [|? ? He Hrest]; subst. cbn [fst] in He.
    unfold poll_after, batch_all. cbn [fold_left map fst snd].
    fold (poll_after (recordingStartTime m) rest
            (realTimePPGRec (wrapu32 (recordingStartTime m + e)) c g m)).
    fold (batch_all (map snd rest) (batchPPGData c g m)).
    assert (Hstep : realTimePPGRec (wrapu32 (recordingStartTime m + e)) c g m =
                    batchPPGData c g m).
    { unfold realTimePPGRec, collectPPGData. rewrite Hin.
      rewrite elapsed_wrap by (unfold COLLECTION_TIME in He; lia).
      destruct (e <? COLLECTION_TIME) eqn:E; [reflexivity|]. lia. }
    rewrite Hstep.
    destruct (batchPPGData_frame c g m) as (F1 & F2 & F3 & _).
    destruct (IH (batchPPGData c g m)) as (I1 & I2 & I3 & I4);
      [congruence | congruence | exact Hrest |].
    split; [exact I1 | split; [exact I2 | split; [congruence | congruence]]].
Qed.

(** X16. A recording started by the command byte 0x01 (or
    [startRealTimePPGRecording]) keeps the bytes pending from before, batches
    the reading of every poll made less than 60000 ms after the start, and is
    stopped with the sensor shut down, without batching, by the first poll at
    60000 ms or later; further polls do nothing.  The elapsed time is taken
    modulo 2^32, so a wrap-around of [millis()] during the recording does not
    matter. *)
Theorem recording_window (start : Z) (polls : list (Z * (bool * Z))) (late : Z)
    (c : bool) (g : Z) (m : PPGManager) :
  Forall (fun p => 0 <= fst p < COLLECTION_TIME) polls ->
  COLLECTION_TIME <= late < 2 ^ 32 ->
  let started := startRealTimePPGRecording start m in
  let during := poll_after start polls started in
  let after := realTimePPGRec (wrapu32 (start + late)) c g during in
  recordingStartCallback start [1] 1 (Some m) = Some started /\
  dataBatch started = dataBatch m /\
  during = batch_all (map snd polls) started /\
  recordingInProgress during = true /\ sensor_awake during = true /\
  after = stopRealTimePPGRecording during /\
  recordingInProgress after = false /\ sensor_awake after = false /\
  dataBatch after = dataBatch during /\ notified after = notified during /\
  (forall t c' g', realTimePPGRec t c' g' after = after).
Proof.
  intros Hall Hlate. cbv zeta.
  set (started := startRealTimePPGRecording start m).
  destruct (poll_after_window start polls started eq_refl eq_refl Hall)
    as (H1 & H2 & H3 & H4).
  set (during := poll_after start polls started) in *.
  assert (Hafter : realTimePPGRec (wrapu32 (start + late)) c g during =
                   stopRealTimePPGRecording during).
  { unfold realTimePPGRec. rewrite H2, H3.
    rewrite elapsed_wrap by (unfold COLLECTION_TIME in Hlate; lia).
    destruct (late <? COLLECTION_TIME) eqn:E; [lia | reflexivity]. }
  rewrite Hafter.
  repeat split; try reflexivity; try assumption.
Qed.

Lemma recording_window_witness :
  Forall (fun p => 0 <= fst p < COLLECTION_TIME) [(0, (true, 5)); (59999, (false, 7))] /\
  COLLECTION_TIME <= 60000 < 2 ^ 32 /\
  recordingInProgress
    (realTimePPGRec (wrapu32 (4294967000 + 60000)) true 9
       (poll_after 4294967000 [(0, (true, 5)); (59999, (false, 7))]
          (startRealTimePPGRecording 4294967000 ppg0))) = false.
Proof.
  assert (H1 : Forall (fun p : Z * (bool * Z) => 0 <= fst p < COLLECTION_TIME)
                 [(0, (true, 5)); (59999, (false, 7))]).
  { repeat constructor; cbn; unfold COLLECTION_TIME; lia. }
  assert (H2 : COLLECTION_TIME <= 60000 < 2 ^ 32).
  { unfold COLLECTION_TIME. lia. }
  split; [exact H1 | split; [exact H2 |]].
  exact (proj1 (proj2 (proj2 (proj2 (proj2 (proj2 (proj2
    (recording_window 4294967000 [(0, (true, 5)); (59999, (false, 7))] 60000 true 9 ppg0 H1 H2)))))))).
Defined.

(** ** PPGManager: the sample buffer *)

Lemma ppg_step_index (m : PPGManager) (c : ppg_call) :
  PPGindex (ppg_step m c) = PPGindex m \/ PPGindex (ppg_step m c) = 0.
Proof.
  destruct c; cbn; auto.
  - unfold realTimePPGRec, collectPPGData.
    destruct (recordingInProgress m); auto.
    destruct (_ <? _); auto.
    left. apply batchPPGData_frame.
  - destruct (len =? 1); auto.
    destruct (nth 0 data 0 =? 1); auto.
    destruct (nth 0 data 0 =? 0); auto.
Qed.

(** X17. No call of the PPG manager advances [PPGindex]: it is kept
    or reset to 0, so once below [BUFFER_SIZE] (as after construction)
    [isDataCollected] is false after any sequence of calls. *)
Theorem isDataCollected_never (calls : list ppg_call) (m : PPGManager) :
  PPGindex m < BUFFER_SIZE ->
  PPGindex (ppg_run calls m) < BUFFER_SIZE /\
  isDataCollected (ppg_run calls m) = false.
Proof.
  intros H.
  assert (Hinv : PPGindex (ppg_run calls m) < BUFFER_SIZE).
  { revert m H. induction calls as [|c rest IH]; intros m H; [exact H|].
    cbn. apply IH. destruct (ppg_step_index m c) as [E|E]; rewrite E.
    - exact H.
    - reflexivity. }
  split; [exact Hinv|]. unfold isDataCollected.
  destruct (PPGindex (ppg_run calls m) >=? BUFFER_SIZE) eqn:E; [lia | reflexivity].
Qed.

Lemma isDataCollected_never_witness :
  PPGindex ppg0 < BUFFER_SIZE /\
  isDataCollected
    (ppg_run [Call_recordingStartCallback 10 [1] 1; Call_realTimePPGRec 20 true 500;
              Call_realTimePPGRec 70000 true 500] ppg0) = false.
Proof.
  split; [reflexivity|].
  apply (isDataCollected_never
           [Call_recordingStartCallback 10 [1] 1; Call_realTimePPGRec 20 true 500;
            Call_realTimePPGRec 70000 true 500] ppg0).
  reflexivity.
Defined.

(** ** PowerManager: the battery status *)

Lemma battery_table :
  forallb (fun adc =>
             Ascii.eqb (classifyBatteryStatus (readBatteryVoltage adc))
               (if adc <=? 1344 then "R"%char else if adc <=? 1498 then "Y"%char else "G"%char))
    (Arr.range 0 4096) = true.
Proof. vm_compute. reflexivity. Qed.

(** X18. For a 12-bit ADC reading [readAndSaveBatteryStatus] stores
    ['R'] for readings up to 1344, ['Y'] from 1345 to 1498 and ['G'] from
    1499 on, whatever the status before. *)
Theorem battery_status_by_reading (adcReading : Z) (batteryStatus : ascii) :
  0 <= adcReading <= 4095 ->
  readAndSaveBatteryStatus adcReading batteryStatus =
  (if adcReading <=? 1344 then "R"%char
   else if adcReading <=? 1498 then "Y"%char else "G"%char).
Proof.
  intros H. unfold readAndSaveBatteryStatus.
  pose proof battery_table as T. rewrite forallb_forall in T.
  apply Ascii.eqb_eq. apply T. apply range_In. lia.
Qed.

Lemma battery_status_by_reading_witness :
  0 <= 1400 <= 4095 /\ readAndSaveBatteryStatus 1400 "U"%char = "Y"%char.
Proof.
  split; [lia|]. apply (battery_status_by_reading 1400 "U"%char). lia.
Defined.

(** ** ButtonManager: press patterns *)

Ltac button_cases :=
  repeat match goal with
         | |- context [if ?c then _ else _] => destruct c eqn:?; cbn
         end.

Lemma handleButton_read_lock (millis : nat -> Z) (n : nat) (s : bool) (b : ButtonManager) :
  lockOut (handleButton_read millis n s b) = lockOut b /\
  lastDebounceTime (handleButton_read millis n s b) = lastDebounceTime b.
Proof.
  unfold handleButton_read. cbv zeta. destruct b; cbn.
  button_cases; auto.
Qed.

Lemma button_step_lock (b : ButtonManager) (c : button_call) :
  lockOut b = false ->
  lockOut (button_step b c) = false /\
  lastDebounceTime (button_step b c) = lastDebounceTime b.
Proof.
  intros H. destruct c; cbn.
  - unfold handleButton. rewrite H.
    destruct (handleButton_read_lock millis O currentButtonState b) as [A B].
    rewrite A, B. auto.
  - unfold isLongPress. destruct (longPressDetected b); cbn; auto.
  - unfold isDoublePress. destruct (doublePressDetected b); cbn; auto.
Qed.

(** X19. [lockOut] is never set and [lastDebounceTime] never written:
    after any sequence of calls on a new [ButtonManager] the lockout is off,
    so [handleButton] never returns early. *)
Theorem lockOut_never_armed (calls : list button_call) (millis : nat -> Z) (s : bool) :
  let b := button_run calls ButtonManager_new in
  lockOut b = false /\ lastDebounceTime b = 0 /\
  handleButton millis s b = handleButton_read millis O s b.
Proof.
  cbv zeta.
  assert (H : forall b, lockOut b = false ->
                        lockOut (button_run calls b) = false /\
                        lastDebounceTime (button_run calls b) = lastDebounceTime b).
  { unfold button_run. induction calls as [|c rest IH]; intros b Hb; [auto|].
    cbn [fold_left]. destruct (button_step_lock b c Hb) as [A B].
    destruct (IH _ A) as [C D]. split; [exact C | congruence]. }
  destruct (H ButtonManager_new eq_refl) as [A B].
  split; [exact A | split; [exact B |]].
  unfold handleButton. rewrite A. reflexivity.
Qed.

Lemma press_held (millis : nat -> Z) (b : ButtonManager) :
  lockOut b = false -> lastButtonState b = HIGH ->
  let b' := handleButton millis LOW b in
  held_since (millis O) (longPressDetected b) (doublePressDetected b) b' /\
  lastPressTime b' = lastPressTime b /\
  (isSecondPress b' = true -> isSecondPress b = true) /\
  (isSecondPress b = true -> wrapu32 (millis 1%nat - lastPressTime b) <= 500 ->
   isSecondPress b' = true).
Proof.
  intros Hl Hs. cbv zeta. unfold handleButton, handleButton_read, held_since.
  destruct b; cbn in *. subst. cbn.
  button_cases; repeat split; auto; try congruence; try lia.
Qed.

Lemma hold_held (p : Z) (long double : bool) (millis : nat -> Z) (b : ButtonManager) :
  held_since p long double b ->
  let b' := handleButton millis LOW b in
  held_since p long double b' /\
  lastPressTime b' = lastPressTime b /\
  (isSecondPress b' = true -> isSecondPress b = true) /\
  (isSecondPress b = true -> wrapu32 (millis O - lastPressTime b) <= 500 ->
   isSecondPress b' = true).
Proof.
  intros (H1 & H2 & H3 & H4 & H5 & H6). cbv zeta.
  unfold handleButton, handleButton_read, held_since.
  destruct b; cbn in *. subst. cbn.
  button_cases; repeat split; auto; try congruence; try lia.
Qed.

Lemma poll_held (p : Z) (long double : bool) (held : list ((nat -> Z) * bool))
    (b : ButtonManager) :
  held_since p long double b ->
  Forall (fun r => snd r = LOW) held ->
  held_since p long double (poll held b) /\
  lastPressTime (poll held b) = lastPressTime b /\
  (isSecondPress (poll held b) = true -> isSecondPress b = true) /\
  (isSecondPress b = true ->
   Forall (fun r => wrapu32 (fst r O - lastPressTime b) <= 500) held ->
   isSecondPress (poll held b) = true).
Proof.
  revert b. induction held as [|[millis s] rest IH]; intros b Hb Hall.
  - cbn. auto.
  - inversion Hall as [|? ? Hs Hrest]; subst. cbn [snd] in Hs. subst s.
    cbn [poll fold_left fst snd].
    fold (poll rest (handleButton millis LOW b)).
    destruct (hold_held p long double millis b Hb) as (A & B & C & D).
    destruct (IH _ A Hrest) as (A' & B' & C' & D').
    split; [exact A'|]. split; [congruence|]. split; [auto|].
    intros Hsec Hw. inversion Hw as [|? ? Hw1 Hw2]; subst. cbn [fst] in Hw1.
    apply D'; [apply D; assumption|]. rewrite B. exact Hw2.
Qed.

Lemma release_held (p : Z) (long double : bool) (millis : nat -> Z) (b : ButtonManager) :
  held_since p long double b ->
  let b' := handleButton millis HIGH b in
  let pressDuration := wrapu32 (millis O - p) in
  isPressed b' = false /\ lastButtonState b' = HIGH /\ lockOut b' = false /\
  (pressDuration > 800 ->
   longPressDetected b' = true /\ doublePressDetected b' = double /\
   isSecondPress b' = isSecondPress b /\ lastPressTime b' = lastPressTime b) /\
  (pressDuration <= 800 -> longPressDetected b' = long) /\
  (pressDuration <= 800 -> isSecondPress b = false ->
   isSecondPress b' = true /\ lastPressTime b' = millis 1%nat /\
   doublePressDetected b' = double) /\
  (pressDuration <= 800 -> isSecondPress b = true ->
   wrapu32 (millis 1%nat - lastPressTime b) <= 500 ->
   isSecondPress b' = false /\ doublePressDetected b' = true) /\
  (pressDuration <= 800 -> isSecondPress b = true ->
   wrapu32 (millis 1%nat - lastPressTime b) > 500 ->
   isSecondPress b' = true /\ doublePressDetected b' = double /\
   lastPressTime b' = lastPressTime b).
Proof.
  intros (H1 & H2 & H3 & H4 & H5 & H6). cbv zeta.
  unfold handleButton, handleButton_read.
  destruct b as [ip [|] lp dp dt pt lt lo ls]; cbn in *; subst; cbn;
    button_cases; repeat split; intros; auto; try congruence; try lia;
    try (exfalso; lia).
Qed.

Lemma idle_waiting (mark : Z) (idle : list ((nat -> Z) * bool)) (b : ButtonManager) :
  lockOut b = false -> lastButtonState b = HIGH ->
  isSecondPress b = true -> lastPressTime b = mark ->
  Forall (fun r => snd r = HIGH /\ wrapu32 (fst r O - mark) <= 500) idle ->
  poll idle b = b.
Proof.
  intros Hl Hs Hsec Hm Hall. induction Hall as [|[millis s] rest [Hr Hw] _ IH].
  - reflexivity.
  - cbn [fst snd] in Hr, Hw. subst s. cbn [poll fold_left fst snd].
    assert (E : handleButton millis HIGH b = b).
    { unfold handleButton, handleButton_read.
      destruct b; cbn in *; subst; cbn.
      destruct (_ >? 500) eqn:E; [exfalso; lia | reflexivity]. }
    rewrite E. exact IH.
Qed.

(** X20. A press held over any number of polls is reported as a long
    press on release exactly when the release comes more than 800 ms (modulo
    2^32) after the press: then [isLongPress] answers true once and false
    afterwards, and the double-press flag is untouched; a shorter press
    leaves the long-press flag as it was. *)
Theorem long_press_detected (b : ButtonManager) (press : nat -> Z)
    (held : list ((nat -> Z) * bool)) (release : nat -> Z) :
  lockOut b = false -> lastButtonState b = HIGH ->
  Forall (fun r => snd r = LOW) held ->
  let b' := handleButton release HIGH (poll held (handleButton press LOW b)) in
  let pressDuration := wrapu32 (release O - press O) in
  isPressed b' = false /\
  (pressDuration > 800 ->
   longPressDetected b' = true /\
   doublePressDetected b' = doublePressDetected b /\
   fst (isLongPress b') = true /\
   fst (isLongPress (snd (isLongPress b'))) = false) /\
  (pressDuration <= 800 -> longPressDetected b' = longPressDetected b).
Proof.
  intros Hl Hs Hall. cbv zeta.
  destruct (press_held press b Hl Hs) as (A & _).
  destruct (poll_held _ _ _ held _ A Hall) as (A' & _).
  destruct (release_held _ _ _ release _ A') as (R1 & _ & _ & R2 & R3 & _).
  split; [exact R1|]. split; [|exact R3].
  intros Hd. destruct (R2 Hd) as (L & D & _).
  split; [exact L|]. split; [exact D|].
  unfold isLongPress. rewrite L. cbn. split; reflexivity.
Qed.

Lemma long_press_detected_witness :
  lockOut ButtonManager_new = false /\ lastButtonState ButtonManager_new = HIGH /\
  wrapu32 (at_ms 1900 O - at_ms 1000 O) > 800 /\
  longPressDetected
    (handleButton (at_ms 1900) HIGH
       (poll [(at_ms 1300, LOW); (at_ms 1600, LOW)]
          (handleButton (at_ms 1000) LOW ButtonManager_new))) = true.
Proof.
  assert (Hd : wrapu32 (at_ms 1900 O - at_ms 1000 O) > 800) by reflexivity.
  split; [reflexivity | split; [reflexivity | split; [exact Hd |]]].
  refine (proj1 (proj1 (proj2
    (long_press_detected ButtonManager_new (at_ms 1000)
       [(at_ms 1300, LOW); (at_ms 1600, LOW)] (at_ms 1900) eq_refl eq_refl _)) Hd)).
  repeat constructor.
Defined.

(** X21. Two short presses (at most 800 ms each) are reported as a
    double press when every poll from the first release to the second
    release comes within 500 ms of the first release: the first release only
    arms the detection, the second sets the flag and disarms it, and
    [isDoublePress] answers true once and false afterwards. *)
Theorem double_press_detected (b : ButtonManager)
    (press1 : nat -> Z) (held1 : list ((nat -> Z) * bool)) (release1 : nat -> Z)
    (idle : list ((nat -> Z) * bool))
    (press2 : nat -> Z) (held2 : list ((nat -> Z) * bool)) (release2 : nat -> Z) :
  lockOut b = false -> lastButtonState b = HIGH -> isSecondPress b = false ->
  Forall (fun r => snd r = LOW) held1 ->
  wrapu32 (release1 O - press1 O) <= 800 ->
  Forall (fun r => snd r = HIGH /\ wrapu32 (fst r O - release1 1%nat) <= 500) idle ->
  wrapu32 (press2 1%nat - release1 1%nat) <= 500 ->
  Forall (fun r => snd r = LOW /\ wrapu32 (fst r O - release1 1%nat) <= 500) held2 ->
  wrapu32 (release2 O - press2 O) <= 800 ->
  wrapu32 (release2 1%nat - release1 1%nat) <= 500 ->
  let b1 := handleButton release1 HIGH (poll held1 (handleButton press1 LOW b)) in
  let b2 := handleButton release2 HIGH
              (poll held2 (handleButton press2 LOW (poll idle b1))) in
  doublePressDetected b1 = doublePressDetected b /\
  isSecondPress b1 = true /\
  doublePressDetected b2 = true /\
  isSecondPress b2 = false /\
  longPressDetected b2 = longPressDetected b /\
  fst (isDoublePress b2) = true /\
  fst (isDoublePress (snd (isDoublePress b2))) = false.
Proof.
  intros Hl Hs Hsec Hheld1 Hd1 Hidle Hp2 Hheld2 Hd2 Hr2. cbv zeta.
  (* the first press *)
  destruct (press_held press1 b Hl Hs) as (A & _ & S1 & _).
  destruct (poll_held _ _ _ held1 _ A Hheld1) as (A' & _ & S1' & _).
  assert (Hsec1 : isSecondPress (poll held1 (handleButton press1 LOW b)) = false).
  { destruct (isSecondPress (poll held1 (handleButton press1 LOW b))) eqn:E;
      [|reflexivity].
    rewrite (S1 (S1' eq_refl)) in Hsec. discriminate. }
  destruct (release_held _ _ _ release1 _ A') as (R1 & R2 & R3 & _ & R4 & R5 & _).
  destruct (R5 Hd1 Hsec1) as (T1 & T2 & T3).
  specialize (R4 Hd1).
  set (b1 := handleButton release1 HIGH (poll held1 (handleButton press1 LOW b))) in *.
  (* waiting *)
  rewrite (idle_waiting (release1 1%nat) idle b1 R3 R2 T1 T2 Hidle).
  (* the second press *)
  destruct (press_held press2 b1 R3 R2) as (B & BL & _ & BS).
  assert (Hsec2 : isSecondPress (handleButton press2 LOW b1) = true).
  { apply BS; [exact T1 | rewrite T2; exact Hp2]. }
  assert (Hheld2' : Forall (fun r : (nat -> Z) * bool => snd r = LOW) held2).
  { eapply Forall_impl; [|exact Hheld2]. intros r [H _]. exact H. }
  destruct (poll_held _ _ _ held2 _ B Hheld2') as (B' & BL' & _ & BS').
  assert (Hsec3 : isSecondPress (poll held2 (handleButton press2 LOW b1)) = true).
  { apply BS'; [exact Hsec2|]. rewrite BL, T2.
    eapply Forall_impl; [|exact Hheld2]. intros r [_ H]. exact H. }
  destruct (release_held _ _ _ release2 _ B') as (_ & _ & _ & _ & Q1 & _ & Q2 & _).
  assert (Hm : lastPressTime (poll held2 (handleButton press2 LOW b1)) = release1 1%nat)
    by congruence.
  destruct (Q2 Hd2 Hsec3) as (U1 & U2); [rewrite Hm; exact Hr2|].
  specialize (Q1 Hd2).
  split; [exact T3|]. split; [exact T1|]. split; [exact U2|]. split; [exact U1|].
  split; [congruence|].
  unfold isDoublePress. rewrite U2. cbn. split; reflexivity.
Qed.

Lemma double_press_detected_witness :
  doublePressDetected
    (handleButton (at_ms 1500) HIGH
       (poll [(at_ms 1450, LOW)]
          (handleButton (at_ms 1400) LOW
             (poll [(at_ms 1200, HIGH); (at_ms 1300, HIGH)]
                (handleButton (at_ms 1100) HIGH
                   (poll [(at_ms 1050, LOW)]
                      (handleButton (at_ms 1000) LOW ButtonManager_new))))))) = true.
Proof.
  refine (proj1 (proj2 (proj2
    (double_press_detected ButtonManager_new
       (at_ms 1000) [(at_ms 1050, LOW)] (at_ms 1100)
       [(at_ms 1200, HIGH); (at_ms 1300, HIGH)]
       (at_ms 1400) [(at_ms 1450, LOW)] (at_ms 1500)
       eq_refl eq_refl eq_refl _ _ _ _ _ _ _)))).
  - repeat constructor.
  - vm_compute. discriminate.
  - repeat constructor; vm_compute; discriminate.
  - vm_compute. discriminate.
  - repeat constructor; vm_compute; discriminate.
  - vm_compute. discriminate.
  - vm_compute. discriminate.
Defined.
